(** * ai-dev-assistant frontend: the diagram component and the chat page

    A shallow embedding of the client-side logic of the diagram component
    [Mermaid] (chart clean-up, zoom overlay) and of the chat page [Home]
    (session collection, one chat turn, command suggestions), with the
    properties the specification states about them.

    The page exists in two versions.  The one with the command table and the
    session id in the requests follows the component in
    [frontend/components/Mermaid.tsx]; it is the one the specification
    describes, and it is [Page] below.  The earlier one is
    [frontend/app/page.tsx]; [PageDraft] holds what it does differently.

    Conventions.
    - A JavaScript string is the list of its UTF-16 code units ([N]).
    - A React state cell is a field of a record.  An event handler reads
      the cells of the render it was created in and writes the next state:
      every handler takes the render's state and returns the state after
      its [set...] calls, so a helper called from a handler still sees the
      cells of the render (a stale closure stays stale in the model).
    - [Date.now()], the answer of [confirm] and the outcome of a backend
      call are inputs of the handler that asks for them.
    - [localStorage] under the key [chat_history] holds the collection
      itself: [JSON.stringify] followed by [JSON.parse] is taken to give
      the collection back. *)

From Stdlib Require Import List NArith Bool Ascii String Lia Floats.
From Stdlib Require Import DecimalString DecimalN.
Import ListNotations.

Local Open Scope N_scope.
Local Open Scope list_scope.

(** ** JavaScript strings *)

Module JS.

(** A string value: its UTF-16 code units in order. *)
Definition jsstring : Type := list N.

(** A literal of the source whose characters are all Basic Latin. *)
Definition u (s : string) : jsstring :=
  map N_of_ascii (list_ascii_of_string s).

(** The double quote (U+0022), the single quote (U+0027), the semicolon. *)
Definition dquote : N := 34.
Definition squote : N := 39.
Definition semicolon : N := 59.

(** [a === b] on two strings. *)
Fixpoint eqb (a b : jsstring) : bool :=
  match a, b with
  | [], [] => true
  | x :: a', y :: b' => (x =? y) && eqb a' b'
  | _, _ => false
  end.

(** Truthiness of a string: the empty string is falsy. *)
Definition truthy (s : jsstring) : bool :=
  match s with [] => false | _ :: _ => true end.

(** [s.startsWith(pat)] *)
Fixpoint startsWith (s pat : jsstring) {struct pat} : bool :=
  match pat with
  | [] => true
  | p :: pat' =>
      match s with
      | [] => false
      | c :: s' => (c =? p) && startsWith s' pat'
      end
  end.

(** [s.slice(0, n)] for [0 <= n]. *)
Definition slice0 (n : nat) (s : jsstring) : jsstring := firstn n s.

(** [WhiteSpace] and [LineTerminator] of ECMA-262: what [trim] removes and
    what the class [\s] matches. *)
Definition isLineTerminator (c : N) : bool :=
  (c =? 10) || (c =? 13) || (c =? 8232) || (c =? 8233).

Definition isWhiteSpace (c : N) : bool :=
  (c =? 9) || (c =? 11) || (c =? 12) || (c =? 32) || (c =? 160)
  || (c =? 5760) || ((8192 <=? c) && (c <=? 8202))
  || (c =? 8239) || (c =? 8287) || (c =? 12288) || (c =? 65279)
  || isLineTerminator c.

Fixpoint trimStart (s : jsstring) : jsstring :=
  match s with
  | [] => []
  | c :: s' => if isWhiteSpace c then trimStart s' else s
  end.

Definition trimEnd (s : jsstring) : jsstring := rev (trimStart (rev s)).

(** [s.trim()] *)
Definition trim (s : jsstring) : jsstring := trimEnd (trimStart s).

(** The text is trimmed: no white space at either end. *)
Definition trimmed (s : jsstring) : Prop :=
  isWhiteSpace (hd 0 s) = false /\ isWhiteSpace (last s 0) = false.

(** [s.replace(/pat/g, rep)] for a pattern that is a non-empty literal and a
    replacement without [$]: matches are found left to right and do not
    overlap.  [skip] counts the units of the current match still to be
    dropped. *)
Fixpoint replaceFrom (pat rep : jsstring) (skip : nat) (s : jsstring)
  : jsstring :=
  match s with
  | [] => []
  | c :: s' =>
      match skip with
      | S k => replaceFrom pat rep k s'
      | O =>
          if startsWith s pat
          then rep ++ replaceFrom pat rep (pred (List.length pat)) s'
          else c :: replaceFrom pat rep 0 s'
      end
  end.

Definition replaceAll (pat rep : jsstring) (s : jsstring) : jsstring :=
  replaceFrom pat rep 0 s.

(** Case folding of one unit as the [i] flag does it without the [u] flag
    ([Canonicalize]: upper-case, but a unit outside Basic Latin never folds
    into Basic Latin).  The patterns of this program are Basic Latin, so only
    the folding of Basic Latin letters can make a unit equal a pattern unit;
    the other units are left as they are. *)
Definition canonicalize (c : N) : N :=
  if (97 <=? c) && (c <=? 122) then c - 32 else c.

Fixpoint startsWithIgnoreCase (s pat : jsstring) {struct pat} : bool :=
  match pat with
  | [] => true
  | p :: pat' =>
      match s with
      | [] => false
      | c :: s' =>
          (canonicalize c =? canonicalize p) && startsWithIgnoreCase s' pat'
      end
  end.

(** [s.toLowerCase()] on Basic Latin: A-Z go to a-z.  Units outside Basic
    Latin are kept; the Unicode mapping sends none of them to a text that a
    command of this program starts with (the only Basic Latin letters it
    yields are [k] from U+212A and [i] followed by U+0307 from U+0130). *)
Definition lowerUnit (c : N) : N :=
  if (65 <=? c) && (c <=? 90) then c + 32 else c.

Definition toLowerCase (s : jsstring) : jsstring := map lowerUnit s.

(** [n.toString()] for a non-negative integer. *)
Definition toString (n : N) : jsstring :=
  u (NilEmpty.string_of_uint (N.to_uint n)).

(** [parts.join(sep)] *)
Fixpoint join (sep : jsstring) (parts : list jsstring) : jsstring :=
  match parts with
  | [] => []
  | [p] => p
  | p :: rest => p ++ sep ++ join sep rest
  end.

(** [s.includes(pat)]: the text [pat] stands somewhere in [s]. *)
Fixpoint includes (s pat : jsstring) : bool :=
  startsWith s pat ||
  match s with
  | [] => false
  | _ :: s' => includes s' pat
  end.

End JS.

Import JS.

(** ** The diagram component (Mermaid.tsx) *)

Module Mermaid.

(** *** Clean-up of the chart text (renderChart, CLEANUP LOGIC) *)

(** [/^mermaid\s*/i], first match only: a leading keyword in any case and the
    white space after it. *)
Definition stripKeyword (s : jsstring) : jsstring :=
  if startsWithIgnoreCase s (u "mermaid") then trimStart (skipn 7 s) else s.

Definition edgeOpen : jsstring := u " -- ".
Definition edgeClose : jsstring := u " -->".

(** The group [(.*?)] followed by the arrow: the shortest run of units that
    are not line terminators after which a space and the arrow stand. *)
Fixpoint lazyLabel (s : jsstring) : option jsstring :=
  if startsWith s edgeClose then Some []
  else
    match s with
    | [] => None
    | c :: s' =>
        if isLineTerminator c then None
        else
          match lazyLabel s' with
          | Some l => Some (c :: l)
          | None => None
          end
    end.

(** The callback's [label.replace]: every double quote of the label becomes a
    single quote. *)
Definition safeLabel (label : jsstring) : jsstring :=
  map (fun c => if c =? dquote then squote else c) label.

(** The callback's result: the safe label between double quotes, between the
    two dashes and the arrow. *)
Definition quoted (label : jsstring) : jsstring :=
  edgeOpen ++ [dquote] ++ safeLabel label ++ [dquote] ++ edgeClose.

(** [cleanChart.replace(/ -- (.*?) -->/g, ...)], the step Fix Edge Labels. *)
Fixpoint fixEdgeLabelsFrom (skip : nat) (s : jsstring) : jsstring :=
  match s with
  | [] => []
  | c :: s' =>
      match skip with
      | S k => fixEdgeLabelsFrom k s'
      | O =>
          if startsWith s edgeOpen then
            match lazyLabel (skipn 4 s) with
            | Some label =>
                quoted label ++ fixEdgeLabelsFrom (7 + List.length label) s'
            | None => c :: fixEdgeLabelsFrom 0 s'
            end
          else c :: fixEdgeLabelsFrom 0 s'
      end
  end.

Definition fixEdgeLabels (s : jsstring) : jsstring := fixEdgeLabelsFrom 0 s.

(** Some labelled edge stands in the text: the pattern of [fixEdgeLabels]
    matches somewhere. *)
Fixpoint hasLabelledEdge (s : jsstring) : bool :=
  (startsWith s edgeOpen &&
   match lazyLabel (skipn 4 s) with Some _ => true | None => false end)
  ||
  match s with
  | [] => false
  | _ :: s' => hasLabelledEdge s'
  end.

(** The chain of replacements up to [.trim()]. *)
Definition cleanupChain (chart : jsstring) : jsstring :=
  let s1 := replaceAll (u "&gt;") (u ">") chart in
  let s2 := replaceAll (u "&lt;") (u "<") s1 in
  let s3 := replaceAll (u "&quot;") [dquote] s2 in
  let s4 := replaceAll (u "```mermaid") [] s3 in
  let s5 := replaceAll (u "```") [] s4 in
  let s6 := stripKeyword s5 in
  let s7 := replaceAll (u "graph TD") (u "flowchart TD") s6 in
  let s8 := replaceAll [semicolon] [] s7 in
  trim s8.

(** The text handed to [mermaid.render]: the spec's [sanitize]. *)
Definition cleanChart (chart : jsstring) : jsstring :=
  fixEdgeLabels (cleanupChain chart).

(** *** The zoom overlay *)

(** [Math.min] and [Math.max] on two numbers: NaN when either is NaN, and the
    negative zero below the positive one. *)
Definition Math_min (x y : float) : float :=
  if PrimFloat.is_nan x || PrimFloat.is_nan y then PrimFloat.nan
  else if PrimFloat.ltb x y then x
  else if PrimFloat.ltb y x then y
  else if PrimFloat.get_sign x then x else y.

Definition Math_max (x y : float) : float :=
  if PrimFloat.is_nan x || PrimFloat.is_nan y then PrimFloat.nan
  else if PrimFloat.ltb x y then y
  else if PrimFloat.ltb y x then x
  else if PrimFloat.get_sign x then y else x.

(** The two state cells of the overlay. *)
Record ZoomState : Type := mkZoom { isZoomed : bool; zoomLevel : float }.

Definition setIsZoomed (b : bool) (st : ZoomState) : ZoomState :=
  mkZoom b (zoomLevel st).

Definition setZoomLevel (f : float -> float) (st : ZoomState) : ZoomState :=
  mkZoom (isZoomed st) (f (zoomLevel st)).

(** Zoom Helpers.  The updates are functional ([prev => ...]), so they act
    on the current level. *)
Definition handleZoomIn : ZoomState -> ZoomState :=
  setZoomLevel (fun prev => Math_min (PrimFloat.add prev 0.25%float) 5%float).

Definition handleZoomOut : ZoomState -> ZoomState :=
  setZoomLevel (fun prev => Math_max (PrimFloat.sub prev 0.25%float) 0.5%float).

Definition handleResetZoom : ZoomState -> ZoomState :=
  setZoomLevel (fun _ => 1%float).

(** The ways the overlay is closed: the close control of the bar, a click on
    the dimmed backdrop, a click on the scroll area around the diagram, the
    Escape key. *)
Inductive ClosePath : Type :=
  CloseControl | BackdropClick | ScrollAreaClick | EscapeKey.

Inductive Event : Type :=
| ThumbnailClick
| ZoomInControl
| ZoomOutControl
| ResetControl
| Wheel (ctrlKey : bool) (deltaY : float)
| Close (p : ClosePath).

(** A control of the overlay is in the page only while [isZoomed]. *)
Definition whileOpen (f : ZoomState -> ZoomState) (st : ZoomState)
  : ZoomState :=
  if isZoomed st then f st else st.

(** The handler of an event.  The Escape listener is on the window all the
    time; the other ways to close and the zoom controls belong to the
    overlay. *)
Definition handle (e : Event) (st : ZoomState) : ZoomState :=
  match e with
  | ThumbnailClick => setIsZoomed true st
  | ZoomInControl => whileOpen handleZoomIn st
  | ZoomOutControl => whileOpen handleZoomOut st
  | ResetControl => whileOpen handleResetZoom st
  | Wheel ctrlKey deltaY =>
      whileOpen
        (fun st =>
           if ctrlKey then
             if PrimFloat.ltb deltaY 0%float then handleZoomIn st
             else handleZoomOut st
           else st)
        st
  | Close EscapeKey => setIsZoomed false st
  | Close _ => whileOpen (setIsZoomed false) st
  end.

(** The effect with dependency [isZoomed] (Reset Zoom when closing modal): it
    runs after a render in which [isZoomed] changed. *)
Definition resetEffect (before after : ZoomState) : ZoomState :=
  if Bool.eqb (isZoomed before) (isZoomed after) then after
  else if isZoomed after then after
  else setZoomLevel (fun _ => 1%float) after.

(** One event, with the effects it triggers. *)
Definition step (st : ZoomState) (e : Event) : ZoomState :=
  resetEffect st (handle e st).

Definition run (st : ZoomState) (es : list Event) : ZoomState :=
  fold_left step es st.

(** The state after mounting: the initial values of the two cells (the
    effect's first run sets the level to 1 again). *)
Definition mounted : ZoomState := mkZoom false 1%float.

(** While the overlay is closed the level is 1. *)
Definition closedAtOne (st : ZoomState) : Prop :=
  isZoomed st = false -> zoomLevel st = 1%float.

(** The levels a quarter apart from 0.5 to 5. *)
Definition zoomLevels : list float :=
  [0.5; 0.75; 1; 1.25; 1.5; 1.75; 2; 2.25; 2.5; 2.75; 3; 3.25; 3.5; 3.75; 4;
   4.25; 4.5; 4.75; 5]%float.

End Mermaid.

(** ** The chat page, in the version with commands and session ids *)

Module Page.

Inductive Role : Type := user | ai.

Record Message : Type := mkMessage {
  role : Role;
  content : jsstring;
  context : option jsstring;
  timestamp : N
}.

Record ChatSession : Type := mkSession {
  id : jsstring;
  title : jsstring;
  messages : list Message;
  repoUrl : jsstring
}.

Record Command : Type := mkCommand {
  cmd : jsstring;
  label : jsstring;
  desc : jsstring
}.

Definition COMMANDS : list Command :=
  [ mkCommand (u "/refactor") (10024 :: u " Refactor")
      (u "Improve code structure & quality");
    mkCommand (u "/test") (55358 :: 56810 :: u " Gen Test")
      (u "Write unit tests for code");
    mkCommand (u "/security") (55357 :: 56594 :: u " Security")
      (u "Check for vulnerabilities");
    mkCommand (u "/explain") (55356 :: 57235 :: u " Explain")
      (u "Explain code logic simply");
    mkCommand (u "/diagram") (55357 :: 56522 :: u " Diagram")
      (u "Generate Mermaid flowchart") ].

(** What [localStorage.getItem] and [JSON.parse] give for [chat_history]: no
    item, an item that does not parse, or a collection. *)
Inductive Stored : Type :=
| Absent
| Unparsable
| Parsed (l : list ChatSession).

(** The state cells of [Home] that the session and chat logic uses, and the
    stored item.  [repoUrlCell] is the cell [repoUrl]. *)
Record State : Type := mkState {
  sessions : list ChatSession;
  activeSessionId : option jsstring;
  repoUrlCell : jsstring;
  chatInput : jsstring;
  chatLoading : bool;
  showSuggestions : bool;
  filteredCmds : list Command;
  chat_history : Stored
}.

Definition setSessions (v : list ChatSession) (st : State) : State :=
  mkState v (activeSessionId st) (repoUrlCell st) (chatInput st)
    (chatLoading st) (showSuggestions st) (filteredCmds st) (chat_history st).

Definition setActiveSessionId (v : option jsstring) (st : State) : State :=
  mkState (sessions st) v (repoUrlCell st) (chatInput st)
    (chatLoading st) (showSuggestions st) (filteredCmds st) (chat_history st).

Definition setRepoUrl (v : jsstring) (st : State) : State :=
  mkState (sessions st) (activeSessionId st) v (chatInput st)
    (chatLoading st) (showSuggestions st) (filteredCmds st) (chat_history st).

Definition setChatInput (v : jsstring) (st : State) : State :=
  mkState (sessions st) (activeSessionId st) (repoUrlCell st) v
    (chatLoading st) (showSuggestions st) (filteredCmds st) (chat_history st).

Definition setChatLoading (v : bool) (st : State) : State :=
  mkState (sessions st) (activeSessionId st) (repoUrlCell st) (chatInput st)
    v (showSuggestions st) (filteredCmds st) (chat_history st).

Definition setShowSuggestions (v : bool) (st : State) : State :=
  mkState (sessions st) (activeSessionId st) (repoUrlCell st) (chatInput st)
    (chatLoading st) v (filteredCmds st) (chat_history st).

Definition setFilteredCmds (v : list Command) (st : State) : State :=
  mkState (sessions st) (activeSessionId st) (repoUrlCell st) (chatInput st)
    (chatLoading st) (showSuggestions st) v (chat_history st).

Definition setItem (v : list ChatSession) (st : State) : State :=
  mkState (sessions st) (activeSessionId st) (repoUrlCell st) (chatInput st)
    (chatLoading st) (showSuggestions st) (filteredCmds st) (Parsed v).

(** [a || b] on strings. *)
Definition orElse (a b : jsstring) : jsstring := if truthy a then a else b.

(** The first render: the initial values of the cells. *)
Definition initial (saved : Stored) : State :=
  mkState [] None [] [] false false COMMANDS saved.

Definition saveSessions (newSessions : list ChatSession) (next : State)
  : State :=
  setItem newSessions (setSessions newSessions next).

Definition loadSession (session : ChatSession) (next : State) : State :=
  setRepoUrl (orElse (repoUrl session) []) (setActiveSessionId (Some (id session)) next).

(** [createNewSession] prepends to the [sessions] of the render it was
    created in. *)
Definition newChat (now : N) (url : jsstring) : ChatSession :=
  mkSession (u "sess_" ++ toString now) (u "New Chat") [] url.

Definition createNewSession (now : N) (render next : State) : State :=
  let newSession := newChat now [] in
  let updated := newSession :: sessions render in
  loadSession newSession (saveSessions updated next).

(** Load History on Mount. *)
Definition mount (now : N) (render : State) : State :=
  match chat_history render with
  | Parsed parsed =>
      let next := setSessions parsed render in
      match parsed with
      | latest :: _ =>
          setRepoUrl (orElse (repoUrl latest) [])
            (setActiveSessionId (Some (id latest)) next)
      | [] => createNewSession now render next
      end
  | Unparsable => createNewSession now render render
  | Absent => createNewSession now render render
  end.

Definition isActive (st : State) (sessionId : jsstring) : bool :=
  match activeSessionId st with
  | Some a => eqb a sessionId
  | None => false
  end.

(** [deleteSession]; [confirmed] is the answer of the confirm dialog. *)
Definition deleteSession (confirmed : bool) (now : N) (sessionId : jsstring)
  (render : State) : State :=
  if negb confirmed then render
  else
    let updated :=
      filter (fun s => negb (eqb (id s) sessionId)) (sessions render) in
    let next := saveSessions updated render in
    if isActive render sessionId then
      match updated with
      | first :: _ => loadSession first next
      | [] => createNewSession now render next
      end
    else next.

(** The session with a given id, as [sessions.find] gives it. *)
Definition findSession (sessionId : jsstring) (l : list ChatSession)
  : option ChatSession :=
  find (fun s => eqb (id s) sessionId) l.

(** Some session is active and stands in the collection. *)
Definition hasActive (st : State) : bool :=
  match activeSessionId st with
  | Some a => existsb (fun s => eqb (id s) a) (sessions st)
  | None => false
  end.

(** A deletion request: the answer of the dialog, the clock, the id. *)
Definition Deletion : Type := (bool * N * jsstring)%type.

Definition deleteAll (st : State) (ds : list Deletion) : State :=
  fold_left (fun st d => deleteSession (fst (fst d)) (snd (fst d)) (snd d) st)
    ds st.

(** [activeMessages] *)
Definition activeMessages (st : State) : list Message :=
  match activeSessionId st with
  | Some a =>
      match findSession a (sessions st) with
      | Some s => messages s
      | None => []
      end
  | None => []
  end.

(** *** One chat turn (handleChat) *)

(** What the continuation after the [await] still holds of the turn. *)
Record Turn : Type := mkTurn {
  currentSessionId : jsstring;
  updatedWithUser : list ChatSession;
  userMsg : Message
}.

Definition appendTo (sessionId : jsstring) (m : Message) (s : ChatSession)
  : ChatSession :=
  if eqb (id s) sessionId
  then mkSession (id s) (title s) (messages s ++ [m]) (repoUrl s)
  else s.

Definition ellipsis : jsstring := u "...".

(** The optimistic update of one session. *)
Definition withUser (sessionId input url : jsstring) (m : Message)
  (s : ChatSession) : ChatSession :=
  if eqb (id s) sessionId then
    let newTitle :=
      match messages s with
      | [] => slice0 30 input ++ ellipsis
      | _ :: _ => title s
      end in
    mkSession (id s) newTitle (messages s ++ [m]) (orElse url (repoUrl s))
  else s.

(** [handleChat] up to the [await]: [None] when the input is empty and the
    handler returns at once. *)
Definition handleChat (nowId nowMsg : N) (render : State)
  : option Turn * State :=
  if negb (truthy (chatInput render)) then (None, render)
  else
    let next := setShowSuggestions false render in
    let newSession := newChat nowId (repoUrlCell render) in
    let prepared :=
      match activeSessionId render with
      | Some a =>
          if truthy a then (a, sessions render, next)
          else (id newSession, newSession :: sessions render,
                setActiveSessionId (Some (id newSession)) next)
      | None =>
          (id newSession, newSession :: sessions render,
           setActiveSessionId (Some (id newSession)) next)
      end in
    let '(sid, currentSessions, next) := prepared in
    let m := mkMessage user (chatInput render) None nowMsg in
    let updated :=
      map (withUser sid (chatInput render) (repoUrlCell render) m)
        currentSessions in
    (Some (mkTurn sid updated m),
     setChatLoading true (setChatInput [] (saveSessions updated next))).

(** The fields of the answer of [/ask-codebase] that are read. *)
Record Answer : Type := mkAnswer {
  answer : jsstring;
  context_used : option jsstring;
  sources : option (list jsstring)
}.

Inductive Outcome : Type :=
| Fulfilled (data : Answer)
| Rejected.

Definition contextOf (data : Answer) : option jsstring :=
  let fromSources :=
    match sources data with
    | Some l => Some (u "Sources: " ++ join (u ", ") l)
    | None => None
    end in
  match context_used data with
  | Some c => if truthy c then Some c else fromSources
  | None => fromSources
  end.

Definition errorText : jsstring :=
  10060 :: u " Error connecting to AI. Please try again.".

Definition aiMsg (data : Answer) (now : N) : Message :=
  mkMessage ai (answer data) (contextOf data) now.

Definition errorMsg (now : N) : Message :=
  mkMessage ai errorText None now.

(** The message of the reconciliation: the reply, or the error message of the
    [catch] branch. *)
Definition reply (o : Outcome) (now : N) : Message :=
  match o with
  | Fulfilled data => aiMsg data now
  | Rejected => errorMsg now
  end.

(** [handleChat] after the [await]: the [try] or the [catch] branch, then
    [finally].  [current] is the state when the call settles; the sessions
    come from the turn. *)
Definition handleChat_settled (t : Turn) (o : Outcome) (now : N)
  (current : State) : State :=
  setChatLoading false
    (saveSessions
       (map (appendTo (currentSessionId t) (reply o now)) (updatedWithUser t))
       current).

(** *** Command suggestions *)

Definition handleInputChange (val : jsstring) (render : State) : State :=
  let next := setChatInput val render in
  if startsWith val (u "/") then
    let searchTerm := toLowerCase val in
    let matches := filter (fun c => startsWith (cmd c) searchTerm) COMMANDS in
    setShowSuggestions (negb (Nat.eqb (List.length matches) 0))
      (setFilteredCmds matches next)
  else setShowSuggestions false next.

Definition selectCommand (c : jsstring) (render : State) : State :=
  setShowSuggestions false (setChatInput (c ++ u " ") render).

(** The commands shown in the panel: none while the panel is hidden. *)
Definition suggestions (st : State) : list jsstring :=
  if showSuggestions st then map cmd (filteredCmds st) else [].

End Page.

(** ** The earlier chat page (frontend/app/page.tsx without commands)

    The same cells and types; the two places where it does something else
    than the page above. *)

Module PageDraft.

Import Page.

(** [deleteSession]: with no session left it clears the active id. *)
Definition deleteSession (confirmed : bool) (sessionId : jsstring)
  (render : State) : State :=
  if negb confirmed then render
  else
    let updated :=
      filter (fun s => negb (eqb (id s) sessionId)) (sessions render) in
    let next := saveSessions updated render in
    if isActive render sessionId then
      match updated with
      | first :: _ =>
          setRepoUrl (repoUrl first)
            (setActiveSessionId (Some (id first)) next)
      | [] => setRepoUrl [] (setActiveSessionId None next)
      end
    else next.

(** [handleChat] after the [await]: the [catch] branch only logs. *)
Definition handleChat_settled (t : Turn) (o : Outcome) (now : N)
  (current : State) : State :=
  match o with
  | Fulfilled data =>
      let m := mkMessage ai (answer data) (context_used data) now in
      setChatLoading false
        (saveSessions (map (appendTo (currentSessionId t) m) (updatedWithUser t))
           current)
  | Rejected => setChatLoading false current
  end.

End PageDraft.

(** ** States used as examples *)

Module Scenario.

Import Page.

Definition sessionA : ChatSession := mkSession (u "sess_1") (u "A") [] [].
Definition sessionB : ChatSession := mkSession (u "sess_2") (u "B") [] [].
Definition sessionC : ChatSession := mkSession (u "sess_3") (u "C") [] [].

(** The collection [A, B, C] with [active] as the active id and [input] in the
    chat box. *)
Definition three (active : ChatSession) (input : jsstring) : State :=
  mkState [sessionA; sessionB; sessionC] (Some (id active)) [] input
    false false COMMANDS (Parsed [sessionA; sessionB; sessionC]).

(** One session, active, with [input] in the chat box. *)
Definition single (s : ChatSession) (input : jsstring) : State :=
  mkState [s] (Some (id s)) [] input false false COMMANDS (Parsed [s]).

(** A session that has no title and no message yet. *)
Definition untitled : ChatSession := mkSession (u "sess_1") [] [] [].

Definition okAnswer : Outcome :=
  Fulfilled (mkAnswer (u "It adds two numbers.") None None).

(** Two turns that overlap in one session: a second message is sent with
    the Enter key while the first call is pending (only the send button is
    disabled then); the first call fails, then the second is answered.  The
    two states are those after each reconciliation. *)
Definition overlappingTurns : option (State * State) :=
  match handleChat 1 2 (single untitled (u "first")) with
  | (Some t1, st1) =>
      match handleChat 3 4 (handleInputChange (u "second") st1) with
      | (Some t2, st2) =>
          let st3 := handleChat_settled t1 Rejected 5 st2 in
          Some (st3, handleChat_settled t2 okAnswer 6 st3)
      | (None, _) => None
      end
  | (None, _) => None
  end.

End Scenario.


(** ** The rest of the page and of the component *)

(** *** Two more string operations *)

Module JSMore.

(** [s.endsWith(pat)] *)
Definition endsWith (s pat : jsstring) : bool := startsWith (rev s) (rev pat).

(** [s.slice(0, -1)] *)
Definition dropLast (s : jsstring) : jsstring := removelast s.

End JSMore.

Import JSMore.

(** *** The chart on its way into the component *)

Module Chart.

Import Mermaid.

(** The code renderer of the transcript hands over
    [String(children).replace(/\n$/, ...)] with nothing as replacement: a
    line feed that ends the text is dropped. *)
Definition stripFinalNewline (s : jsstring) : jsstring :=
  if endsWith s [10] then dropLast s else s.

(** The guard of the render effect: no chart, or nothing but white space. *)
Definition isBlank (chart : jsstring) : bool :=
  negb (truthy chart) || Nat.eqb (List.length (trim chart)) 0.

(** What the render effect sends to the engine: nothing for a blank chart
    (the status is then [empty]), else the cleaned chart. *)
Definition renderRequest (chart : jsstring) : option jsstring :=
  if isBlank chart then None else Some (cleanChart chart).

(** Two texts of which the first may have one more line feed at the end. *)
Definition upToNewline (x y : jsstring) : Prop := x = y \/ x = y ++ [10].

End Chart.

(** *** Backend address, repository loading, and the controls of the page *)

Module PageFlow.

Import Page.

(** [getApiUrl]; [envUrl] is [process.env.NEXT_PUBLIC_API_URL]. *)
Definition getApiUrl (envUrl : option jsstring) : jsstring :=
  let fallback := u "http://127.0.0.1:8000" in
  let url :=
    match envUrl with
    | Some e => orElse e fallback
    | None => fallback
    end in
  let url := if negb (startsWith url (u "http")) then u "https://" ++ url
             else url in
  if endsWith url (u "/") then dropLast url else url.

(** What the continuation of [handleIngest] holds. *)
Record IngestTurn : Type := mkIngest {
  ingestSessionId : jsstring;
  ingestSessions : list ChatSession;
  ingestUrl : jsstring
}.

Definition ackText : jsstring :=
  9989 :: u " Repo ingested successfully! I'm ready to answer questions.".

(** The update of one session when the repository is loaded. *)
Definition ingested (sessionId url : jsstring) (m : Message) (s : ChatSession)
  : ChatSession :=
  if eqb (id s) sessionId
  then mkSession (id s) (title s) (messages s ++ [m]) url
  else s.

(** [handleIngest] up to the [await]: [None] when the URL cell is empty.
    [State] has no cell [ingestStatus]: the writes to it ([loading] before
    the [await], [success] or [error] after it, [idle] three seconds after a
    success) and the alert are not modelled; what is modelled is what the
    handler does to the sessions and to the active id. *)
Definition handleIngest (now : N) (render : State)
  : option IngestTurn * State :=
  if negb (truthy (repoUrlCell render)) then (None, render)
  else
    let newSession :=
      mkSession (u "sess_" ++ toString now) (u "Repo Chat") []
        (repoUrlCell render) in
    let created :=
      (Some (mkIngest (id newSession) (newSession :: sessions render)
               (repoUrlCell render)),
       setActiveSessionId (Some (id newSession)) render) in
    match activeSessionId render with
    | Some a =>
        if truthy a
        then (Some (mkIngest a (sessions render) (repoUrlCell render)), render)
        else created
    | None => created
    end.

(** [handleIngest] after the [await]; [ok] tells whether the call
    succeeded. *)
Definition handleIngest_settled (t : IngestTurn) (ok : bool) (now : N)
  (current : State) : State :=
  if ok then
    saveSessions
      (map (ingested (ingestSessionId t) (ingestUrl t)
              (mkMessage ai ackText None now))
         (ingestSessions t))
      current
  else current.

(** The page with the calls that are pending. *)
Record World : Type := mkWorld {
  page : State;
  chats : list Turn;
  ingests : list IngestTurn
}.

(** What the user and the backend can do to the mounted page: the controls
    of the page with the handler each one calls, and the settling of a
    pending call.  A session is pointed at by its place in the list, a
    command by its place in the table. *)
Inductive Action : Type :=
| NewClick (now : N)
| SessionClick (k : nat)
| DeleteClick (k : nat) (confirmed : bool) (now : N)
| RepoUrlChange (val : jsstring)
| LoadClick (now : N)
| IngestSettles (k : nat) (ok : bool) (now : N)
| InputChange (val : jsstring)
| CommandClick (k : nat)
| SendChat (nowId nowMsg : N)
| ChatSettles (k : nat) (o : Outcome) (now : N)
| ClosePanel.

Definition without {A : Type} (k : nat) (l : list A) : list A :=
  firstn k l ++ skipn (S k) l.

Definition onPage (f : State -> State) (w : World) : World :=
  mkWorld (f (page w)) (chats w) (ingests w).

Definition act (w : World) (a : Action) : World :=
  match a with
  | NewClick now => onPage (fun st => createNewSession now st st) w
  | SessionClick k =>
      match nth_error (sessions (page w)) k with
      | Some s => onPage (loadSession s) w
      | None => w
      end
  | DeleteClick k confirmed now =>
      match nth_error (sessions (page w)) k with
      | Some s => onPage (deleteSession confirmed now (id s)) w
      | None => w
      end
  | RepoUrlChange val => onPage (setRepoUrl val) w
  | LoadClick now =>
      match handleIngest now (page w) with
      | (Some t, st) => mkWorld st (chats w) (ingests w ++ [t])
      | (None, st) => mkWorld st (chats w) (ingests w)
      end
  | IngestSettles k ok now =>
      match nth_error (ingests w) k with
      | Some t =>
          mkWorld (handleIngest_settled t ok now (page w)) (chats w)
            (without k (ingests w))
      | None => w
      end
  | InputChange val => onPage (handleInputChange val) w
  | CommandClick k =>
      match nth_error COMMANDS k with
      | Some c => onPage (selectCommand (cmd c)) w
      | None => w
      end
  | SendChat nowId nowMsg =>
      match handleChat nowId nowMsg (page w) with
      | (Some t, st) => mkWorld st (chats w ++ [t]) (ingests w)
      | (None, st) => mkWorld st (chats w) (ingests w)
      end
  | ChatSettles k o now =>
      match nth_error (chats w) k with
      | Some t =>
          mkWorld (handleChat_settled t o now (page w)) (without k (chats w))
            (ingests w)
      | None => w
      end
  | ClosePanel => onPage (setShowSuggestions false) w
  end.

(** The page once the mount effect has run. *)
Definition mountedWorld (saved : Stored) (now : N) : World :=
  mkWorld (mount now (initial saved)) [] [].

Definition runPage (w : World) (actions : list Action) : World :=
  fold_left act actions w.

(** The cell [sessions] and the stored item agree. *)
Definition synced (st : State) : Prop :=
  chat_history st = Parsed (sessions st).

(** Every id of the list is a non-empty string. *)
Definition idsTruthy (l : list ChatSession) : Prop :=
  Forall (fun s => truthy (id s) = true) l.

Definition storedIdsTruthy (saved : Stored) : Prop :=
  match saved with
  | Parsed l => idsTruthy l
  | _ => True
  end.

(** What holds of the page at every moment after the mount effect: the
    stored item is the cell [sessions], some session id is active, and the
    panel is not shown without a command in it. *)
Definition wellKept (st : State) : Prop :=
  synced st /\
  activeSessionId st <> None /\
  (showSuggestions st = true -> filteredCmds st <> []).

(** The active id and all ids in the page and in the pending calls are
    non-empty strings. *)
Definition idsKept (w : World) : Prop :=
  (exists a, activeSessionId (page w) = Some a /\ truthy a = true) /\
  idsTruthy (sessions (page w)) /\
  Forall (fun t => idsTruthy (updatedWithUser t)) (chats w) /\
  Forall (fun t => idsTruthy (ingestSessions t)) (ingests w).

End PageFlow.

(** *** More states used as examples *)

Module Scenario2.

Import Page PageFlow Scenario.

(** A page stranded on an unlisted session: a question is sent in the only
    session, a new session is opened while the call is pending, and the
    reply then puts back the collection of the turn, which does not have
    the new session; the user types on. *)
Definition strandingActions : list Action :=
  [InputChange (u "first"); SendChat 1 2; NewClick 3;
   ChatSettles 0 okAnswer 4; InputChange (u "second")].

Definition strandedPage : State :=
  page (runPage (mountedWorld (Parsed [untitled]) 0) strandingActions).

(** The stranded page after the one listed session is deleted. *)
Definition emptiedPage : State :=
  page (runPage (mountedWorld (Parsed [untitled]) 0)
          (strandingActions ++ [DeleteClick 0 true 7])).

(** Two turns that overlap: the second question is sent with the Enter key
    while the first call is pending (the send button is disabled while
    [chatLoading], the key handler is not). *)
Definition overlappingActions : list Action :=
  [InputChange (u "first"); SendChat 1 2;
   InputChange (u "second"); SendChat 3 4].

Definition pageBeforeFailure : State :=
  page (runPage (mountedWorld (Parsed [untitled]) 0) overlappingActions).

(** The same page once the first call has failed. *)
Definition pageAfterFailure : State :=
  page (runPage (mountedWorld (Parsed [untitled]) 0)
          (overlappingActions ++ [ChatSettles 0 Rejected 5])).

End Scenario2.

(** * Properties *)

(** ** Strings *)

Section StringFacts.

Lemma startsWith_In (pat s : jsstring) :
  startsWith s pat = true -> forall c, In c pat -> In c s.
Proof.
  revert s. induction pat as [|p pat IH]; intros s H c Hc.
  - destruct Hc.
  - destruct s as [|a s]; simpl in H; [discriminate|].
    apply andb_true_iff in H. destruct H as [Ha Hs].
    apply N.eqb_eq in Ha. subst a.
    destruct Hc as [->|Hc]; [now left|right; eauto].
Qed.

Lemma startsWith_app (p1 p2 s : jsstring) :
  startsWith s (p1 ++ p2) = true -> startsWith s p1 = true.
Proof.
  revert s. induction p1 as [|p p1 IH]; intros s H; [reflexivity|].
  destruct s as [|a s]; simpl in *; [discriminate|].
  apply andb_true_iff in H. destruct H as [Ha Hs].
  rewrite Ha. simpl. eauto.
Qed.

Lemma includes_app (p1 p2 s : jsstring) :
  includes s p1 = false -> includes s (p1 ++ p2) = false.
Proof.
  induction s as [|a s IH]; simpl; intros H;
    apply orb_false_iff in H; destruct H as [H1 H2];
    apply orb_false_iff; split; auto;
    destruct (startsWith _ (p1 ++ p2)) eqn:E; auto;
    apply startsWith_app in E; congruence.
Qed.

Lemma includes_In (pat s : jsstring) (c : N) :
  In c pat -> ~ In c s -> includes s pat = false.
Proof.
  intros Hc. induction s as [|a s IH]; intros Hs; simpl.
  - destruct pat; [destruct Hc | reflexivity].
  - apply orb_false_iff. split.
    + destruct (startsWith (a :: s) pat) eqn:E; auto.
      exfalso. apply Hs. eapply startsWith_In; eauto.
    + apply IH. intros H. apply Hs. now right.
Qed.

(** A pattern that stands nowhere leaves the text as it is. *)
Lemma replaceAll_absent (pat rep s : jsstring) :
  includes s pat = false -> replaceAll pat rep s = s.
Proof.
  unfold replaceAll. induction s as [|a s IH]; intros H; [reflexivity|].
  simpl in H. apply orb_false_iff in H. destruct H as [H1 H2].
  cbn [replaceFrom]. rewrite H1. f_equal. auto.
Qed.

(** Replacing the one-unit pattern by nothing keeps the other units. *)
Lemma replaceAll_unit (c : N) (s : jsstring) :
  replaceAll [c] [] s = filter (fun a => negb (a =? c)) s.
Proof.
  unfold replaceAll. induction s as [|a s IH]; [reflexivity|].
  cbn [replaceFrom startsWith filter List.length pred app].
  rewrite andb_true_r. destruct (a =? c); simpl; now rewrite IH.
Qed.

Lemma trimStart_In (s : jsstring) (c : N) :
  In c (trimStart s) -> In c s.
Proof.
  induction s as [|a s IH]; simpl; [auto|].
  destruct (isWhiteSpace a); [right; auto | auto].
Qed.

Lemma trim_In (s : jsstring) (c : N) : In c (trim s) -> In c s.
Proof.
  unfold trim, trimEnd. intros H.
  apply in_rev in H. apply trimStart_In in H. apply in_rev in H.
  now apply trimStart_In.
Qed.

Lemma trimStart_clean (s : jsstring) :
  isWhiteSpace (hd 0 s) = false -> trimStart s = s.
Proof. destruct s as [|a s]; simpl; [reflexivity|]. now intros ->. Qed.

Lemma trimStart_hd (s : jsstring) : isWhiteSpace (hd 0 (trimStart s)) = false.
Proof.
  induction s as [|a s IH]; [reflexivity|]. simpl.
  destruct (isWhiteSpace a) eqn:E; [exact IH | exact E].
Qed.

Lemma trimStart_snoc (s : jsstring) (c : N) :
  isWhiteSpace c = false -> trimStart (s ++ [c]) = trimStart s ++ [c].
Proof.
  intros Hc. induction s as [|a s IH]; simpl; [now rewrite Hc|].
  destruct (isWhiteSpace a); [exact IH | reflexivity].
Qed.

Lemma hd_rev (s : jsstring) : hd 0 (rev s) = last s 0.
Proof.
  induction s as [|a s IH] using rev_ind; [reflexivity|].
  now rewrite rev_app_distr, last_last.
Qed.

Lemma trimEnd_clean (s : jsstring) :
  isWhiteSpace (last s 0) = false -> trimEnd s = s.
Proof.
  intros H. unfold trimEnd. rewrite trimStart_clean; [apply rev_involutive|].
  now rewrite hd_rev.
Qed.

Lemma trimEnd_last (s : jsstring) : isWhiteSpace (last (trimEnd s) 0) = false.
Proof.
  unfold trimEnd. rewrite <- hd_rev, rev_involutive. apply trimStart_hd.
Qed.

Lemma trimEnd_hd (s : jsstring) :
  isWhiteSpace (hd 0 s) = false -> isWhiteSpace (hd 0 (trimEnd s)) = false.
Proof.
  destruct s as [|a s]; [reflexivity|]. simpl. intros Ha.
  unfold trimEnd. simpl. rewrite trimStart_snoc by exact Ha.
  now rewrite rev_app_distr.
Qed.

Lemma trim_trimmed (s : jsstring) : trimmed (trim s).
Proof.
  split; unfold trim; [apply trimEnd_hd, trimStart_hd | apply trimEnd_last].
Qed.

Lemma trimmed_trim (s : jsstring) : trimmed s -> trim s = s.
Proof.
  intros [H1 H2]. unfold trim. rewrite (trimStart_clean _ H1).
  now apply trimEnd_clean.
Qed.

End StringFacts.

(** ** The chart clean-up *)

Section CleanChart.

Import Mermaid.

Lemma edgeOpen_units : edgeOpen = [32; 45; 45; 32].
Proof. reflexivity. Qed.

Lemma edgeClose_units : edgeClose = [32; 45; 45; 62].
Proof. reflexivity. Qed.

Lemma lazyLabel_In (s l : jsstring) :
  lazyLabel s = Some l -> forall c, In c l -> In c s.
Proof.
  revert l. induction s as [|a s IH]; intros l H c Hc.
  - discriminate H.
  - cbn [lazyLabel] in H.
    destruct (startsWith (a :: s) edgeClose).
    + inversion H; subst. destruct Hc.
    + destruct (isLineTerminator a); [discriminate|].
      destruct (lazyLabel s) as [l'|]; [|discriminate].
      inversion H; subst. destruct Hc as [->|Hc]; [now left|right; eauto].
Qed.

Lemma skipn_In (n : nat) (s : jsstring) (c : N) :
  In c (skipn n s) -> In c s.
Proof.
  revert s. induction n as [|n IH]; intros [|a s]; simpl; auto.
Qed.

(** The units of a quoted label: those of the label, plus the space, the
    dash, the angle and the two quotes. *)
Lemma quoted_In (label : jsstring) (c : N) :
  In c (quoted label) ->
  In c label \/ In c [32; 45; 62; dquote; squote].
Proof.
  unfold quoted. rewrite edgeOpen_units, edgeClose_units.
  intros H. rewrite !in_app_iff in H.
  destruct H as [H|[H|[H|[H|H]]]].
  - right. simpl in *. tauto.
  - right. simpl in *. tauto.
  - unfold safeLabel in H. apply in_map_iff in H. destruct H as [x [Hx Hin]].
    destruct (x =? dquote); subst; [right; simpl; tauto | now left].
  - right. simpl in *. tauto.
  - right. simpl in *. tauto.
Qed.

Lemma fixEdgeLabelsFrom_In (s : jsstring) :
  forall k c, In c (fixEdgeLabelsFrom k s) ->
    In c s \/ In c [32; 45; 62; dquote; squote].
Proof.
  induction s as [|a s IH]; intros k c H; [destruct H|].
  cbn [fixEdgeLabelsFrom] in H. destruct k as [|k].
  - destruct (startsWith (a :: s) edgeOpen).
    + destruct (lazyLabel (skipn 4 (a :: s))) as [label|] eqn:E.
      * apply in_app_or in H. destruct H as [H|H].
        -- apply quoted_In in H. destruct H as [H|H]; [left|now right].
           eapply skipn_In, lazyLabel_In; eauto.
        -- apply IH in H. destruct H; [left; now right | now right].
      * destruct H as [->|H]; [left; now left|].
        apply IH in H. destruct H; [left; now right | now right].
    + destruct H as [->|H]; [left; now left|].
      apply IH in H. destruct H; [left; now right | now right].
  - apply IH in H. destruct H; [left; now right | now right].
Qed.

(** No semicolon is left in the cleaned chart. *)
Lemma cleanChart_no_semicolon (chart : jsstring) :
  ~ In semicolon (cleanChart chart).
Proof.
  unfold cleanChart, fixEdgeLabels, cleanupChain. intros H.
  apply fixEdgeLabelsFrom_In in H. destruct H as [H|H].
  - apply trim_In in H. rewrite replaceAll_unit in H.
    apply filter_In in H. destruct H as [_ H].
    now rewrite N.eqb_refl in H.
  - simpl in H. unfold semicolon, dquote, squote in H.
    repeat (destruct H as [H|H]; [discriminate|]). exact H.
Qed.

(** A text without labelled edge is left as it is. *)
Lemma fixEdgeLabels_absent (s : jsstring) :
  hasLabelledEdge s = false -> fixEdgeLabels s = s.
Proof.
  unfold fixEdgeLabels. induction s as [|a s IH]; intros H; [reflexivity|].
  cbn [hasLabelledEdge] in H. apply orb_false_iff in H. destruct H as [H1 H2].
  cbn [fixEdgeLabelsFrom].
  destruct (startsWith (a :: s) edgeOpen).
  - destruct (lazyLabel (skipn 4 (a :: s))); [discriminate|].
    f_equal. auto.
  - f_equal. auto.
Qed.

Lemma fixEdgeLabelsFrom_nonempty (a : N) (s : jsstring) :
  fixEdgeLabelsFrom 0 (a :: s) <> [].
Proof.
  cbn [fixEdgeLabelsFrom].
  destruct (startsWith (a :: s) edgeOpen); [|discriminate].
  destruct (lazyLabel (skipn 4 (a :: s))); [|discriminate].
  unfold quoted. rewrite edgeOpen_units. discriminate.
Qed.

Lemma last_cons_nonempty (a d : N) (s : jsstring) :
  s <> [] -> last (a :: s) d = last s d.
Proof. destruct s; [congruence | reflexivity]. Qed.

Lemma last_app_nonempty (l r : jsstring) (d : N) :
  r <> [] -> last (l ++ r) d = last r d.
Proof.
  intros Hr. induction l as [|a l IH]; [reflexivity|].
  simpl app. rewrite last_cons_nonempty; [exact IH|].
  destruct l; simpl; [exact Hr | discriminate].
Qed.

Lemma last_tail_clean (a : N) (s : jsstring) :
  isWhiteSpace (last (a :: s) 0) = false -> isWhiteSpace (last s 0) = false.
Proof.
  destruct s as [|b s]; [reflexivity|].
  now rewrite last_cons_nonempty by discriminate.
Qed.

Lemma quoted_last (label r : jsstring) :
  isWhiteSpace (last r 0) = false ->
  isWhiteSpace (last (quoted label ++ r) 0) = false.
Proof.
  intros H. destruct r as [|b r].
  - rewrite app_nil_r. unfold quoted.
    rewrite !app_assoc, edgeClose_units.
    rewrite last_app_nonempty by discriminate. reflexivity.
  - now rewrite last_app_nonempty by discriminate.
Qed.

Lemma fixEdgeLabelsFrom_last (s : jsstring) :
  forall k, isWhiteSpace (last s 0) = false ->
    isWhiteSpace (last (fixEdgeLabelsFrom k s) 0) = false.
Proof.
  induction s as [|a s IH]; intros k H; [reflexivity|].
  assert (Hs := last_tail_clean _ _ H).
  assert (Hkeep : isWhiteSpace (last (a :: fixEdgeLabelsFrom 0 s) 0) = false).
  { destruct s as [|b s]; [exact H|].
    rewrite last_cons_nonempty by apply fixEdgeLabelsFrom_nonempty.
    now apply IH. }
  cbn [fixEdgeLabelsFrom]. destruct k as [|k]; [|now apply IH].
  destruct (startsWith (a :: s) edgeOpen); [|exact Hkeep].
  destruct (lazyLabel (skipn 4 (a :: s))); [|exact Hkeep].
  apply quoted_last. now apply IH.
Qed.

Lemma fixEdgeLabels_trimmed (s : jsstring) :
  trimmed s -> trimmed (fixEdgeLabels s).
Proof.
  intros [H1 H2]. split; [|now apply fixEdgeLabelsFrom_last].
  destruct s as [|a s]; [reflexivity|].
  unfold fixEdgeLabels. cbn [fixEdgeLabelsFrom].
  simpl in H1. rewrite edgeOpen_units. cbn [startsWith].
  destruct (a =? 32) eqn:E; [|exact H1].
  apply N.eqb_eq in E. subst a. discriminate.
Qed.

(** The cleaned chart is trimmed. *)
Lemma cleanChart_trimmed (chart : jsstring) : trimmed (cleanChart chart).
Proof. apply fixEdgeLabels_trimmed, trim_trimmed. Qed.

End CleanChart.

Section CleanChartClaims.

Import Mermaid.

(** A fenced chart with an entity, the old keyword and semicolons. *)
Example cleanChart_example :
  cleanChart (u "```mermaid
graph TD;
A --&gt; B;
```") = u "flowchart TD
A --> B".
Proof. vm_compute. reflexivity. Qed.

(** C1, as stated, fails: the clean-up is not idempotent.  On the chart
    [A -- go --> B] the first pass puts the label between double quotes; the
    second pass finds the quoted label, turns its double quotes into single
    ones and wraps it in double quotes again. *)
Lemma cleanChart_not_idempotent :
  cleanChart (u "A -- go --> B")
    = u "A -- " ++ dquote :: u "go" ++ dquote :: u " --> B" /\
  cleanChart (cleanChart (u "A -- go --> B"))
    = u "A -- " ++ dquote :: squote :: u "go" ++ squote :: dquote :: u " --> B" /\
  cleanChart (cleanChart (u "A -- go --> B")) <> cleanChart (u "A -- go --> B").
Proof.
  split; [|split]; [vm_compute; reflexivity | vm_compute; reflexivity |].
  vm_compute. discriminate.
Qed.

(** Removing a semicolon, the white space or the keyword in front can also
    put together a text that a second pass rewrites. *)
Example cleanChart_second_pass_rewrites :
  cleanChart (u "grap;h TD") = u "graph TD" /\
  cleanChart (u "graph TD") = u "flowchart TD" /\
  cleanChart (u "``;`A") = u "```A" /\
  cleanChart (u "```A") = u "A" /\
  cleanChart (u " mermaid A") = u "mermaid A" /\
  cleanChart (u "mermaid A") = u "A".
Proof. repeat split; vm_compute; reflexivity. Qed.

(** C1, amended: a second pass changes nothing when the cleaned chart has no
    labelled edge, no fence, no [graph TD] and no keyword [mermaid] in
    front.  The steps for entities, semicolons and trimming are stable on
    every cleaned chart. *)
Theorem cleanChart_stable (x : jsstring) :
  includes (cleanChart x) (u "```") = false ->
  startsWithIgnoreCase (cleanChart x) (u "mermaid") = false ->
  includes (cleanChart x) (u "graph TD") = false ->
  hasLabelledEdge (cleanChart x) = false ->
  cleanChart (cleanChart x) = cleanChart x.
Proof.
  intros Hfence Hkeyword Hgraph Hedge.
  pose proof (cleanChart_no_semicolon x) as Hsemi.
  pose proof (cleanChart_trimmed x) as Htrim.
  set (y := cleanChart x) in *.
  assert (Hentity : forall pat rep, In semicolon pat -> replaceAll pat rep y = y).
  { intros pat rep Hin. apply replaceAll_absent. eapply includes_In; eauto. }
  unfold cleanChart at 1. unfold cleanupChain.
  rewrite (Hentity (u "&gt;")) by (vm_compute; tauto).
  rewrite (Hentity (u "&lt;")) by (vm_compute; tauto).
  rewrite (Hentity (u "&quot;")) by (vm_compute; tauto).
  rewrite (replaceAll_absent (u "```mermaid"))
    by (apply (includes_app (u "```") (u "mermaid")); exact Hfence).
  rewrite (replaceAll_absent (u "```")) by exact Hfence.
  unfold stripKeyword. rewrite Hkeyword.
  rewrite (replaceAll_absent (u "graph TD")) by exact Hgraph.
  rewrite (Hentity [semicolon]) by (now left).
  rewrite (trimmed_trim _ Htrim).
  now apply fixEdgeLabels_absent.
Qed.

Lemma cleanChart_stable_witness :
  cleanChart (cleanChart (u "graph TD; A --&gt; B; B --> C;"))
  = cleanChart (u "graph TD; A --&gt; B; B --> C;").
Proof. apply cleanChart_stable; vm_compute; reflexivity. Defined.

(** C9: the clean-up strips the semicolons that end statements.  Its rule
    does not look at the position: the step drops every semicolon and keeps
    every other unit, and the cleaned chart holds no semicolon at all. *)
Theorem cleanChart_strips_semicolons :
  (forall s : jsstring,
     replaceAll [semicolon] [] s = filter (fun c => negb (c =? semicolon)) s) /\
  (forall chart : jsstring, ~ In semicolon (cleanChart chart)) /\
  cleanChart (u "graph TD;
A --> B;
B --> C;") = u "flowchart TD
A --> B
B --> C".
Proof.
  split; [exact (replaceAll_unit semicolon)|].
  split; [exact cleanChart_no_semicolon|].
  vm_compute. reflexivity.
Qed.

(** A semicolon inside a node text goes as well. *)
Example cleanChart_semicolon_in_text :
  cleanChart (u "A[x;y] --> B") = u "A[xy] --> B".
Proof. vm_compute. reflexivity. Qed.

End CleanChartClaims.

(** ** The zoom overlay *)

Section Zoom.

Import Mermaid.

Local Open Scope float_scope.

Ltac pick_level := repeat first [left; reflexivity | right].

Ltac each_level H tac :=
  unfold zoomLevels in H; simpl In in H;
  repeat (destruct H as [H|H]; [subst; tac|]); try destruct H.

Lemma one_level : In 1 zoomLevels.
Proof. unfold zoomLevels. simpl. pick_level. Qed.

Lemma zoomIn_level (z : float) :
  In z zoomLevels -> In (Math_min (z + 0.25) 5) zoomLevels.
Proof. intros H. each_level H ltac:(vm_compute; pick_level). Qed.

Lemma zoomOut_level (z : float) :
  In z zoomLevels -> In (Math_max (z - 0.25) 0.5) zoomLevels.
Proof. intros H. each_level H ltac:(vm_compute; pick_level). Qed.

Lemma level_bounds (z : float) :
  In z zoomLevels -> PrimFloat.leb 0.5 z = true /\ PrimFloat.leb z 5 = true.
Proof. intros H. each_level H ltac:(split; reflexivity). Qed.

(** Every event keeps the level on the quarter grid from 0.5 to 5. *)
Lemma step_level (st : ZoomState) (e : Event) :
  In (zoomLevel st) zoomLevels -> In (zoomLevel (step st e)) zoomLevels.
Proof.
  destruct st as [b z]. simpl zoomLevel at 1. intros H.
  pose proof one_level. pose proof (zoomIn_level z H).
  pose proof (zoomOut_level z H).
  destruct e as [| | | |ctrlKey deltaY|[]]; destruct b;
    cbv [step handle whileOpen resetEffect handleZoomIn handleZoomOut
         handleResetZoom setZoomLevel setIsZoomed isZoomed zoomLevel Bool.eqb];
    try assumption;
    destruct ctrlKey; try assumption;
    destruct (PrimFloat.ltb deltaY 0); assumption.
Qed.

Lemma run_level (es : list Event) :
  forall st, In (zoomLevel st) zoomLevels ->
    In (zoomLevel (run st es)) zoomLevels.
Proof.
  unfold run. induction es as [|e es IH]; intros st H; simpl; [exact H|].
  apply IH. now apply step_level.
Qed.

Lemma run_repeat_add (e : Event) (n m : nat) (st : ZoomState) :
  run st (repeat e (n + m)) = run (run st (repeat e n)) (repeat e m).
Proof. unfold run. now rewrite repeat_app, fold_left_app. Qed.

Lemma zoomIn_at_top (n : nat) :
  run (mkZoom true 5) (repeat ZoomInControl n) = mkZoom true 5.
Proof.
  induction n as [|n IH]; [reflexivity|].
  change (S n) with (1 + n)%nat. rewrite run_repeat_add. exact IH.
Qed.

Lemma step_closedAtOne (st : ZoomState) (e : Event) :
  closedAtOne st -> closedAtOne (step st e).
Proof.
  unfold closedAtOne. destruct st as [b z]. simpl. intros H.
  destruct e as [| | | |ctrlKey deltaY|[]]; destruct b;
    cbv [step handle whileOpen resetEffect handleZoomIn handleZoomOut
         handleResetZoom setZoomLevel setIsZoomed isZoomed zoomLevel Bool.eqb];
    try (exact H); try discriminate; try reflexivity;
    destruct ctrlKey; try discriminate;
    destruct (PrimFloat.ltb deltaY 0); discriminate.
Qed.

Lemma run_closedAtOne (es : list Event) :
  forall st, closedAtOne st -> closedAtOne (run st es).
Proof.
  unfold run. induction es as [|e es IH]; intros st H; simpl; [exact H|].
  apply IH. now apply step_closedAtOne.
Qed.

Lemma close_resets (st : ZoomState) (p : ClosePath) :
  closedAtOne st -> step st (Close p) = mkZoom false 1.
Proof.
  unfold closedAtOne. destruct st as [b z]. simpl. intros H.
  destruct p; destruct b;
    cbv [step handle whileOpen resetEffect setZoomLevel setIsZoomed isZoomed
         zoomLevel Bool.eqb];
    try reflexivity; now rewrite H.
Qed.

End Zoom.

Section ZoomClaims.

Import Mermaid.

Local Open Scope float_scope.

(** C6: a zoom step moves the level by 0.25 and keeps it between 0.5 and 5.
    On the grid of levels an increment adds 0.25 except at 5, where it stays,
    and a decrement takes 0.25 off except at 0.5; increments from 1 never go
    above 5 and decrements from 1 never go below 0.5; whatever the events,
    the level stays in the interval; from 0.5 the level 4.75 is reached
    after 17 increments and after no other number of them. *)
Theorem zoom_clamp :
  Forall (fun z => zoomLevel (handleZoomIn (mkZoom true z))
                   = if PrimFloat.eqb z 5 then 5 else z + 0.25) zoomLevels /\
  Forall (fun z => zoomLevel (handleZoomOut (mkZoom true z))
                   = if PrimFloat.eqb z 0.5 then 0.5 else z - 0.25) zoomLevels /\
  (forall n : nat,
     PrimFloat.leb
       (zoomLevel (run (mkZoom true 1) (repeat ZoomInControl n))) 5 = true) /\
  (forall n : nat,
     PrimFloat.leb 0.5
       (zoomLevel (run (mkZoom true 1) (repeat ZoomOutControl n))) = true) /\
  (forall es : list Event,
     PrimFloat.leb 0.5 (zoomLevel (run mounted es)) = true /\
     PrimFloat.leb (zoomLevel (run mounted es)) 5 = true) /\
  (forall n : nat,
     zoomLevel (run (mkZoom true 0.5) (repeat ZoomInControl n)) = 4.75
     <-> n = 17%nat).
Proof.
  split; [repeat constructor|].
  split; [repeat constructor|].
  split; [intros n; apply level_bounds, run_level, one_level|].
  split; [intros n; apply level_bounds, run_level, one_level|].
  split; [intros es; apply level_bounds, run_level, one_level|].
  intros n.
  assert (Hne : forall st : ZoomState,
             PrimFloat.eqb (zoomLevel st) 4.75 = false -> zoomLevel st <> 4.75).
  { intros st Hst E. rewrite E in Hst. discriminate Hst. }
  do 17 (destruct n as [|n];
         [split; [intros E; exfalso; revert E; apply Hne; reflexivity
                 | discriminate]|]).
  destruct n as [|n]; [split; reflexivity|].
  split; [|discriminate].
  intros E. exfalso. revert E. apply Hne.
  change (S (S (S (S (S (S (S (S (S (S (S (S (S (S (S (S (S (S n))))))))))))))))))
    with (18 + n)%nat.
  rewrite run_repeat_add.
  change (run (mkZoom true 0.5) (repeat ZoomInControl 18)) with (mkZoom true 5).
  now rewrite zoomIn_at_top.
Qed.

(** C7: closing the overlay by any path leaves the level at 1.  From an open
    overlay at any level, and from the mounted component, after any events,
    the close control, a click on the backdrop or around the diagram, and
    the Escape key all give [isZoomed = false] with [zoomLevel = 1]. *)
Theorem zoom_reset_on_close :
  (forall (z : float) (es : list Event) (p : ClosePath),
     step (run (mkZoom true z) es) (Close p) = mkZoom false 1) /\
  (forall (es : list Event) (p : ClosePath),
     step (run mounted es) (Close p) = mkZoom false 1).
Proof.
  split; intros; apply close_resets, run_closedAtOne; unfold closedAtOne;
    simpl; [discriminate | reflexivity].
Qed.

End ZoomClaims.

(** ** The chat page *)

Section PageFacts.

Import Page.

Lemma eqb_eq (a b : jsstring) : eqb a b = true <-> a = b.
Proof.
  revert b. induction a as [|x a IH]; intros [|y b]; simpl;
    try (split; [discriminate | discriminate]); [tauto|].
  rewrite andb_true_iff, N.eqb_eq, IH.
  split; [intros [-> ->]; reflexivity | intros E; inversion E; auto].
Qed.

Lemma eqb_refl (a : jsstring) : eqb a a = true.
Proof. now apply eqb_eq. Qed.

Lemma lowerUnit_twice (c : N) : lowerUnit (lowerUnit c) = lowerUnit c.
Proof.
  unfold lowerUnit.
  destruct ((65 <=? c) && (c <=? 90)) eqn:E; [|now rewrite E].
  apply andb_true_iff in E. destruct E as [E1 E2].
  apply N.leb_le in E1, E2.
  replace (c + 32 <=? 90) with false by (symmetry; apply N.leb_gt; lia).
  now rewrite andb_false_r.
Qed.

Lemma toLowerCase_twice (s : jsstring) :
  toLowerCase (toLowerCase s) = toLowerCase s.
Proof.
  unfold toLowerCase. rewrite map_map. apply map_ext, lowerUnit_twice.
Qed.

Lemma toLowerCase_slash (s : jsstring) :
  startsWith (toLowerCase s) (u "/") = startsWith s (u "/").
Proof.
  destruct s as [|c s]; [reflexivity|].
  change (u "/") with [47]. cbn [toLowerCase map startsWith].
  rewrite !andb_true_r. unfold lowerUnit.
  destruct ((65 <=? c) && (c <=? 90)) eqn:E; [|reflexivity].
  apply andb_true_iff in E. destruct E as [E1 E2].
  apply N.leb_le in E1, E2.
  transitivity false; [apply N.eqb_neq; lia | symmetry; apply N.eqb_neq; lia].
Qed.

Lemma appendTo_id (a : jsstring) (m : Message) (s : ChatSession) :
  id (appendTo a m s) = id s.
Proof. unfold appendTo. now destruct (eqb (id s) a). Qed.

Lemma withUser_id (a input url : jsstring) (m : Message) (s : ChatSession) :
  id (withUser a input url m s) = id s.
Proof. unfold withUser. now destruct (eqb (id s) a). Qed.

(** A change of the sessions that keeps the ids commutes with the search. *)
Lemma findSession_map (f : ChatSession -> ChatSession) (a : jsstring)
  (l : list ChatSession) :
  (forall s, id (f s) = id s) ->
  findSession a (map f l) = option_map f (findSession a l).
Proof.
  intros Hf. unfold findSession.
  induction l as [|s l IH]; [reflexivity|]. simpl. rewrite Hf.
  destruct (eqb (id s) a); [reflexivity | exact IH].
Qed.

Lemma findSession_id (a : jsstring) (l : list ChatSession) (s : ChatSession) :
  findSession a l = Some s -> eqb (id s) a = true.
Proof. intros H. now apply find_some in H. Qed.

(** What a turn that is started holds, and the state it leaves. *)
Lemma handleChat_started (nowId nowMsg : N) (st st1 : State) (t : Turn) :
  handleChat nowId nowMsg st = (Some t, st1) ->
  userMsg t = mkMessage user (chatInput st) None nowMsg /\
  sessions st1 = updatedWithUser t /\
  chat_history st1 = Parsed (updatedWithUser t) /\
  currentSessionId t
    = match activeSessionId st with
      | Some a => if truthy a then a else id (newChat nowId (repoUrlCell st))
      | None => id (newChat nowId (repoUrlCell st))
      end /\
  updatedWithUser t
    = map (withUser (currentSessionId t) (chatInput st) (repoUrlCell st)
             (userMsg t))
        (match activeSessionId st with
         | Some a =>
             if truthy a then sessions st
             else newChat nowId (repoUrlCell st) :: sessions st
         | None => newChat nowId (repoUrlCell st) :: sessions st
         end).
Proof.
  unfold handleChat. destruct (truthy (chatInput st)); [|discriminate].
  cbn [negb].
  destruct (activeSessionId st) as [a|]; [destruct (truthy a)|];
    intros E; inversion E; subst; clear E; repeat split; reflexivity.
Qed.

End PageFacts.

Section CommandClaims.

Import Page.

(** C8: with the fixed command table, the input [/sec] gives the one
    suggestion [/security], the input [/zzz] gives none and hides the panel,
    and an input that does not start with a slash hides the panel. *)
Theorem command_filter (val : jsstring) (st : State) :
  startsWith val (u "/") = false ->
  map cmd COMMANDS
    = [u "/refactor"; u "/test"; u "/security"; u "/explain"; u "/diagram"] /\
  map cmd (filteredCmds (handleInputChange (u "/sec") st)) = [u "/security"] /\
  showSuggestions (handleInputChange (u "/sec") st) = true /\
  filteredCmds (handleInputChange (u "/zzz") st) = [] /\
  showSuggestions (handleInputChange (u "/zzz") st) = false /\
  showSuggestions (handleInputChange val st) = false /\
  suggestions (handleInputChange val st) = [].
Proof.
  intros Hval. repeat split; try reflexivity;
    unfold suggestions, handleInputChange; now rewrite Hval.
Qed.

Lemma command_filter_witness :
  startsWith (u "explain /sec") (u "/") = false /\
  showSuggestions
    (handleInputChange (u "explain /sec")
       (handleInputChange (u "/sec") (initial Absent))) = false.
Proof.
  split; [reflexivity|].
  apply (command_filter (u "explain /sec")
           (handleInputChange (u "/sec") (initial Absent))).
  reflexivity.
Defined.

(** C10: the match ignores the case of the input.  For an input that starts
    with a slash, the filtered commands and the visibility of the panel are
    those of the lower-cased input. *)
Theorem suggestions_ignore_case (s : jsstring) (st : State) :
  startsWith s (u "/") = true ->
  filteredCmds (handleInputChange s st)
    = filteredCmds (handleInputChange (toLowerCase s) st) /\
  showSuggestions (handleInputChange s st)
    = showSuggestions (handleInputChange (toLowerCase s) st) /\
  suggestions (handleInputChange s st)
    = suggestions (handleInputChange (toLowerCase s) st).
Proof.
  intros Hs. unfold suggestions, handleInputChange.
  rewrite toLowerCase_slash, Hs, toLowerCase_twice. repeat split.
Qed.

Lemma suggestions_ignore_case_witness :
  suggestions (handleInputChange (u "/SEC") (initial Absent))
    = suggestions (handleInputChange (toLowerCase (u "/SEC")) (initial Absent))
  /\ suggestions (handleInputChange (u "/SEC") (initial Absent))
    = [u "/security"].
Proof.
  split; [|reflexivity].
  apply (suggestions_ignore_case (u "/SEC") (initial Absent)). reflexivity.
Defined.

End CommandClaims.

Section TitleClaims.

Import Page Scenario.

(** C5, as stated, fails on its example: the message has 28 characters, so
    the first 30 are the whole message and the title is the message followed
    by the three dots, not the message cut before its last letter. *)
Lemma title_example_keeps_message :
  List.length (u "Explain this function please") = 28%nat /\
  option_map title
    (findSession (u "sess_1")
       (sessions
          (snd (handleChat 1 2
                  (single untitled (u "Explain this function please"))))))
    = Some (u "Explain this function please...") /\
  option_map title
    (findSession (u "sess_1")
       (sessions
          (snd (handleChat 1 2
                  (single untitled (u "Explain this function please"))))))
    <> Some (u "Explain this function pleas...").
Proof.
  repeat split; try (vm_compute; reflexivity).
  vm_compute. discriminate.
Qed.

(** C5, amended: the first message of a session sets its title to the first
    30 units of the message followed by three dots, whatever the length of
    the message; with messages already there the title stays. *)
Theorem title_auto_set (st : State) (a : jsstring) (s : ChatSession)
  (nowId nowMsg : N) :
  truthy (chatInput st) = true ->
  activeSessionId st = Some a ->
  truthy a = true ->
  findSession a (sessions st) = Some s ->
  option_map title
    (findSession a (sessions (snd (handleChat nowId nowMsg st))))
  = Some match messages s with
         | [] => slice0 30 (chatInput st) ++ u "..."
         | _ :: _ => title s
         end.
Proof.
  intros Hinput Hactive Ha Hs.
  destruct (handleChat nowId nowMsg st) as [[t|] st1] eqn:E.
  - apply handleChat_started in E.
    destruct E as (_ & Hsessions & _ & Hid & Hupd).
    rewrite Hactive, Ha in Hid, Hupd. rewrite Hid in Hupd.
    cbn [snd]. rewrite Hsessions, Hupd.
    rewrite findSession_map by (intros; apply withUser_id).
    rewrite Hs. cbn [option_map]. unfold withUser.
    rewrite (findSession_id _ _ _ Hs). reflexivity.
  - unfold handleChat in E. rewrite Hinput in E. cbn [negb] in E.
    destruct (activeSessionId st) as [b|]; [destruct (truthy b)|];
      discriminate E.
Qed.

Lemma title_auto_set_witness :
  option_map title
    (findSession (u "sess_1")
       (sessions
          (snd (handleChat 1 2
                  (single untitled (u "Explain this function please"))))))
  = Some (u "Explain this function please...").
Proof.
  apply (title_auto_set
           (single untitled (u "Explain this function please"))
           (u "sess_1") untitled 1 2); reflexivity.
Defined.

(** Without an active session the turn creates one, and the message gives
    it its title in the same way. *)
Lemma title_of_created_session (st : State) (nowId nowMsg : N) :
  truthy (chatInput st) = true ->
  activeSessionId st = None ->
  option_map title
    (findSession (id (newChat nowId (repoUrlCell st)))
       (sessions (snd (handleChat nowId nowMsg st))))
  = Some (slice0 30 (chatInput st) ++ u "...").
Proof.
  intros Hinput Hactive. unfold handleChat. rewrite Hinput, Hactive.
  cbn [negb snd saveSessions setChatLoading setChatInput setItem setSessions
       sessions map].
  unfold findSession. cbn [find].
  rewrite withUser_id. unfold withUser. now rewrite !eqb_refl.
Qed.

(** A long first message is cut after 30 units; a second message keeps the
    title. *)
Example title_long_message :
  let st1 :=
    snd (handleChat 1 2
           (single untitled (u "Please explain what this function does")))
  in
  let st2 := snd (handleChat 3 4 (setChatInput (u "And this one?") st1)) in
  option_map title (findSession (u "sess_1") (sessions st1))
    = Some (u "Please explain what this funct...") /\
  option_map title (findSession (u "sess_1") (sessions st2))
    = Some (u "Please explain what this funct...").
Proof. split; vm_compute; reflexivity. Qed.

End TitleClaims.

Section TurnClaims.

Import Page Scenario.


Lemma appendTo_target (a : jsstring) (m : Message) (s : ChatSession) :
  eqb (id s) a = true ->
  appendTo a m s = mkSession (id s) (title s) (messages s ++ [m]) (repoUrl s).
Proof. unfold appendTo. now intros ->. Qed.

(** The reconciliation only appends: every session keeps its id and its
    messages, in order, in front of what is added. *)
Lemma appendTo_grows (a : jsstring) (m : Message) (l : list ChatSession) :
  Forall2
    (fun s s' => id s' = id s /\ exists more, messages s' = messages s ++ more)
    l (map (appendTo a m) l).
Proof.
  induction l as [|s l IH]; simpl; constructor; [|exact IH].
  split; [apply appendTo_id|]. unfold appendTo.
  destruct (eqb (id s) a); simpl; [now exists [m]|].
  exists []. now rewrite app_nil_r.
Qed.



(** The session of a started turn stands in the collection when the page had
    no active session or had one that is listed. *)
Lemma turn_session_listed (st st1 : State) (t : Turn) (nowId nowMsg : N) :
  handleChat nowId nowMsg st = (Some t, st1) ->
  hasActive st = true \/ activeSessionId st = None ->
  exists s1, findSession (currentSessionId t) (sessions st1) = Some s1.
Proof.
  intros E H. apply handleChat_started in E.
  destruct E as (_ & Hsessions & _ & Hid & Hupd).
  rewrite Hsessions, Hupd.
  rewrite findSession_map by (intros; apply withUser_id).
  assert (Hnew : forall l,
    findSession (id (newChat nowId (repoUrlCell st)))
      (newChat nowId (repoUrlCell st) :: l)
    = Some (newChat nowId (repoUrlCell st))).
  { intros l. unfold findSession. cbn [find]. now rewrite eqb_refl. }
  unfold hasActive in H.
  destruct (activeSessionId st) as [a|]; [destruct (truthy a)|];
    rewrite Hid; try (rewrite Hnew; eexists; reflexivity).
  destruct H as [H|H]; [|discriminate].
  apply existsb_exists in H. destruct H as [s [Hin Hs]].
  unfold findSession.
  destruct (find (fun x => eqb (id x) a) (sessions st)) as [s0|] eqn:E0;
    [eexists; reflexivity|].
  apply (find_none _ _ E0) in Hin. congruence.
Qed.

(** What the [catch] branch does achieve of C4.  When the call fails, the
    turn's session gets an AI message with the fixed error text after the
    user's message, which stays; the collection is stored and the loading
    flag is cleared; compared with the collection the turn saved when it
    started, every session keeps its messages and only gains some.  The
    comparison is with the turn's own collection, not with the page when the
    call settles: see [failure_erases_overlapping_message]. *)
Theorem failure_reconciliation (st st1 : State) (t : Turn) (nowId nowMsg : N)
  (s1 : ChatSession) (now : N) (current : State) :
  handleChat nowId nowMsg st = (Some t, st1) ->
  findSession (currentSessionId t) (sessions st1) = Some s1 ->
  (exists older,
     messages s1 = older ++ [mkMessage user (chatInput st) None nowMsg]) /\
  findSession (currentSessionId t)
    (sessions (handleChat_settled t Rejected now current))
  = Some (mkSession (id s1) (title s1)
            (messages s1 ++ [mkMessage ai errorText None now]) (repoUrl s1)) /\
  chat_history (handleChat_settled t Rejected now current)
  = Parsed (sessions (handleChat_settled t Rejected now current)) /\
  chatLoading (handleChat_settled t Rejected now current) = false /\
  Forall2
    (fun s s' => id s' = id s /\ exists more, messages s' = messages s ++ more)
    (sessions st1) (sessions (handleChat_settled t Rejected now current)).
Proof.
  intros E Hs1. apply handleChat_started in E.
  destruct E as (Hmsg & Hsessions & _ & _ & Hupd).
  cbn [handleChat_settled saveSessions setChatLoading setItem setSessions
       sessions chat_history chatLoading reply errorMsg].
  rewrite <- Hsessions.
  split; [|split; [|split; [reflexivity|split; [reflexivity|]]]].
  - rewrite Hsessions, Hupd in Hs1.
    rewrite findSession_map in Hs1 by (intros; apply withUser_id).
    destruct (findSession (currentSessionId t) _) as [s0|] eqn:E0;
      [|discriminate].
    cbn [option_map] in Hs1. inversion Hs1; subst s1; clear Hs1.
    unfold withUser. rewrite (findSession_id _ _ _ E0). cbn [messages].
    exists (messages s0). now rewrite Hmsg.
  - rewrite findSession_map by (intros; apply appendTo_id).
    rewrite Hs1. cbn [option_map].
    now rewrite appendTo_target by (eapply findSession_id; eauto).
  - apply appendTo_grows.
Qed.

Lemma failure_reconciliation_witness :
  exists (t : Turn) (st1 : State),
    handleChat 10 11 (three sessionA (u "What does main do?")) = (Some t, st1) /\
    option_map messages
      (findSession (id sessionA)
         (sessions (handleChat_settled t Rejected 12 st1)))
    = Some [mkMessage user (u "What does main do?") None 11;
            mkMessage ai errorText None 12].
Proof.
  eexists. eexists. split; [vm_compute; reflexivity|].
  rewrite (proj1 (proj2
    (failure_reconciliation (three sessionA (u "What does main do?")) _ _
       10 11 _ 12 _ eq_refl eq_refl))).
  reflexivity.
Defined.

(** Each reconciliation rebuilds the collection from the sessions its own
    turn started with: what other turns wrote while the call was pending is
    not in it. *)
Example overlapping_turns_overwrite :
  option_map
    (fun p => (map content (activeMessages (fst p)),
               map content (activeMessages (snd p))))
    overlappingTurns
  = Some ([u "first"; errorText],
          [u "first"; u "second"; u "It adds two numbers."]).
Proof. vm_compute. reflexivity. Qed.

End TurnClaims.

Section DeleteClaims.

Import Page Scenario.

Lemma existsb_filter_other (a sid : jsstring) (l : list ChatSession) :
  eqb a sid = false ->
  existsb (fun s => eqb (id s) a)
    (filter (fun s => negb (eqb (id s) sid)) l)
  = existsb (fun s => eqb (id s) a) l.
Proof.
  intros Hne. induction l as [|s l IH]; [reflexivity|]. simpl.
  destruct (eqb (id s) sid) eqn:E1; simpl; rewrite IH; [|reflexivity].
  destruct (eqb (id s) a) eqn:E2; [|reflexivity].
  apply eqb_eq in E1, E2. rewrite <- E1, <- E2, eqb_refl in Hne.
  discriminate Hne.
Qed.

(** A deletion, confirmed or not, of any session, keeps an active session
    that stands in the collection. *)
Lemma deleteSession_hasActive (c : bool) (now : N) (sid : jsstring)
  (st : State) :
  hasActive st = true -> hasActive (deleteSession c now sid st) = true.
Proof.
  intros H. unfold deleteSession. destruct c; [|exact H]. cbn [negb].
  unfold isActive, hasActive in *.
  destruct (activeSessionId st) as [a|] eqn:Ea; [|discriminate].
  destruct (eqb a sid) eqn:E.
  - destruct (filter _ (sessions st)) as [|first rest]; simpl;
      now rewrite eqb_refl.
  - simpl. rewrite Ea. now rewrite existsb_filter_other.
Qed.

(** No deletion clears the active id. *)
Lemma deleteSession_keeps_active (now : N) (c : bool) (sid : jsstring)
  (st : State) :
  activeSessionId (deleteSession c now sid st) = None ->
  activeSessionId st = None.
Proof.
  unfold deleteSession. destruct c; [|auto]. cbn [negb].
  destruct (isActive st sid); [|auto].
  destruct (filter _ (sessions st)); discriminate.
Qed.

(** Mounting leaves an active session, whatever was stored. *)
Lemma mount_hasActive (saved : Stored) (now : N) :
  hasActive (mount now (initial saved)) = true.
Proof.
  destruct saved as [| |[|latest parsed]]; unfold mount, hasActive; simpl;
    now rewrite eqb_refl.
Qed.

Lemma deleteAll_hasActive (ds : list Deletion) :
  forall st, hasActive st = true -> hasActive (deleteAll st ds) = true.
Proof.
  unfold deleteAll. induction ds as [|d ds IH]; intros st H; [exact H|].
  simpl. apply IH. now apply deleteSession_hasActive.
Qed.

(** What [deleteSession] does achieve of C3.  Deleting the active session
    makes the head of what is left the active session; when nothing is left,
    a fresh session without messages is created and made active.  Either
    way an active session stands in the collection afterwards; from the
    mounted page no sequence of deletions alone leaves the page without one;
    and no deletion at all clears an active id.  With other actions between
    the deletions this is not enough: see [deletion_leaves_no_active_session]. *)
Theorem delete_active_reassigns (st : State) (sid : jsstring) (now : N) :
  isActive st sid = true ->
  match filter (fun s => negb (eqb (id s) sid)) (sessions st) with
  | first :: rest =>
      activeSessionId (deleteSession true now sid st) = Some (id first) /\
      sessions (deleteSession true now sid st) = first :: rest
  | [] =>
      activeSessionId (deleteSession true now sid st)
        = Some (id (newChat now [])) /\
      hd_error (sessions (deleteSession true now sid st))
        = Some (newChat now []) /\
      messages (newChat now []) = []
  end /\
  hasActive (deleteSession true now sid st) = true /\
  (forall (saved : Stored) (now0 : N) (ds : list Deletion),
     hasActive (deleteAll (mount now0 (initial saved)) ds) = true) /\
  (forall (c : bool) (other : jsstring) (st0 : State),
     activeSessionId (deleteSession c now other st0) = None ->
     activeSessionId st0 = None).
Proof.
  intros Hactive.
  split; [|split; [|split]]; [| | |apply deleteSession_keeps_active].
  - unfold deleteSession. cbn [negb]. rewrite Hactive.
    destruct (filter _ (sessions st)) as [|first rest];
      repeat split; reflexivity.
  - unfold deleteSession, hasActive. cbn [negb]. rewrite Hactive.
    destruct (filter _ (sessions st)) as [|first rest]; simpl;
      now rewrite eqb_refl.
  - intros saved now0 ds. apply deleteAll_hasActive, mount_hasActive.
Qed.

Lemma delete_active_reassigns_witness :
  isActive (three sessionA []) (id sessionA) = true /\
  activeSessionId (deleteSession true 20 (id sessionA) (three sessionA []))
    = Some (id sessionB) /\
  sessions (deleteSession true 20 (id sessionA) (three sessionA []))
    = [sessionB; sessionC].
Proof.
  split; [reflexivity|].
  exact (proj1 (delete_active_reassigns (three sessionA []) (id sessionA) 20
                  eq_refl)).
Defined.

(** Deleting the only session: the fresh session is active, and the
    collection is built from the [sessions] of the render, so the deleted
    session is in it again, behind the fresh one. *)
Example delete_last_session :
  activeSessionId (deleteSession true 20 (id sessionA) (single sessionA []))
    = Some (u "sess_20") /\
  sessions (deleteSession true 20 (id sessionA) (single sessionA []))
    = [mkSession (u "sess_20") (u "New Chat") [] []; sessionA] /\
  chat_history (deleteSession true 20 (id sessionA) (single sessionA []))
    = Parsed [mkSession (u "sess_20") (u "New Chat") [] []; sessionA].
Proof. repeat split. Qed.

(** The earlier page: deleting the only session leaves no active session,
    and a failed call appends nothing. *)
Example draft_delete_last_session :
  activeSessionId (PageDraft.deleteSession true (id sessionA) (single sessionA []))
    = None /\
  sessions (PageDraft.deleteSession true (id sessionA) (single sessionA []))
    = [].
Proof. split; reflexivity. Qed.

Lemma draft_failure_appends_nothing (t : Turn) (now : N) (current : State) :
  sessions (PageDraft.handleChat_settled t Rejected now current)
  = sessions current.
Proof. reflexivity. Qed.

End DeleteClaims.

(** ** More on the chart clean-up *)

Section EdgeLabels.

Import Mermaid.

Lemma startsWith_prefix (pat rest : jsstring) :
  startsWith (pat ++ rest) pat = true.
Proof.
  induction pat as [|p pat IH]; [reflexivity|].
  simpl. now rewrite N.eqb_refl.
Qed.

Lemma startsWith_split (pat s : jsstring) :
  startsWith s pat = true -> s = pat ++ skipn (List.length pat) s.
Proof.
  revert s. induction pat as [|p pat IH]; intros s H; [reflexivity|].
  destruct s as [|a s]; simpl in H; [discriminate|].
  apply andb_true_iff in H. destruct H as [Ha Hs].
  apply N.eqb_eq in Ha. subst a. simpl. f_equal. now apply IH.
Qed.

Lemma lazyLabel_sound (s l : jsstring) :
  lazyLabel s = Some l ->
  s = l ++ edgeClose ++ skipn (List.length l + 4) s /\
  Forall (fun c => isLineTerminator c = false) l /\
  (forall k, (k < List.length l)%nat ->
     startsWith (skipn k s) edgeClose = false).
Proof.
  revert l. induction s as [|a s IH]; intros l H; [discriminate H|].
  cbn [lazyLabel] in H.
  destruct (startsWith (a :: s) edgeClose) eqn:E.
  - inversion H; subst l. split; [|split].
    + exact (startsWith_split edgeClose (a :: s) E).
    + constructor.
    + intros k Hk. inversion Hk.
  - destruct (isLineTerminator a) eqn:Ea; [discriminate|].
    destruct (lazyLabel s) as [l'|]; [|discriminate].
    inversion H; subst l. destruct (IH l' eq_refl) as (Hs & Hl & Hk).
    split; [|split].
    + simpl. f_equal. exact Hs.
    + now constructor.
    + intros [|k] Hlt; [exact E|]. simpl in *. apply Hk. lia.
Qed.

Lemma lazyLabel_complete (l rest : jsstring) :
  Forall (fun c => isLineTerminator c = false) l ->
  (forall k, (k < List.length l)%nat ->
     startsWith (skipn k (l ++ edgeClose ++ rest)) edgeClose = false) ->
  lazyLabel (l ++ edgeClose ++ rest) = Some l.
Proof.
  induction l as [|c l IH]; intros Hl Hk.
  - rewrite edgeClose_units. reflexivity.
  - inversion Hl as [|? ? Hc Hl']; subst.
    assert (H0 := Hk 0%nat ltac:(simpl; lia)). cbn [skipn app] in H0.
    cbn [app lazyLabel]. rewrite H0, Hc.
    rewrite IH; [reflexivity | exact Hl'|].
    intros k Hlt. apply (Hk (S k)). simpl. lia.
Qed.

(** X1: The label of an edge is the text up to the first arrow of the line:
    [lazyLabel s] is [l] exactly when [s] is [l], a space, the arrow and
    some rest, [l] has no line terminator, and no space with an arrow
    starts inside [l]. *)
Theorem edge_label_is_shortest (s l : jsstring) :
  lazyLabel s = Some l <->
  (s = l ++ edgeClose ++ skipn (List.length l + 4) s /\
   Forall (fun c => isLineTerminator c = false) l /\
   (forall k, (k < List.length l)%nat ->
      startsWith (skipn k s) edgeClose = false)).
Proof.
  split; [apply lazyLabel_sound|].
  intros (Hs & Hl & Hk). rewrite Hs. apply lazyLabel_complete; [exact Hl|].
  now rewrite <- Hs.
Qed.

Lemma edge_label_is_shortest_witness :
  lazyLabel (u "yes --> B -- no --> C") = Some (u "yes").
Proof.
  apply (proj2 (edge_label_is_shortest (u "yes --> B -- no --> C") (u "yes"))).
  split; [reflexivity|]. split; [repeat constructor|].
  intros [|[|[|k]]] Hk; try reflexivity. simpl in Hk. lia.
Defined.

End EdgeLabels.

Section FinalNewline.

Import Mermaid Chart.

Lemma startsWith_snoc (c : N) (pat s : jsstring) :
  ~ In c pat -> startsWith (s ++ [c]) pat = startsWith s pat.
Proof.
  revert s. induction pat as [|p pat IH]; intros s Hc; [reflexivity|].
  destruct s as [|a s]; simpl.
  - replace (c =? p) with false; [reflexivity|].
    symmetry. apply N.eqb_neq. intros ->. apply Hc. now left.
  - rewrite IH; [reflexivity|]. intros H. apply Hc. now right.
Qed.

Lemma startsWith_length (pat s : jsstring) :
  startsWith s pat = true -> (List.length pat <= List.length s)%nat.
Proof.
  revert s. induction pat as [|p pat IH]; intros s H; simpl; [lia|].
  destruct s as [|a s]; simpl in *; [discriminate|].
  apply andb_true_iff in H. destruct H as [_ H]. apply IH in H. lia.
Qed.

(** A unit that no pattern holds, put at the end, stays at the end. *)
Lemma replaceFrom_snoc (c : N) (pat rep : jsstring) :
  ~ In c pat -> pat <> [] ->
  forall s k, (k <= List.length s)%nat ->
    replaceFrom pat rep k (s ++ [c]) = replaceFrom pat rep k s ++ [c].
Proof.
  intros Hc Hpat. induction s as [|a s IH]; intros k Hk.
  - simpl in Hk. assert (k = 0)%nat by lia. subst k.
    cbn [app replaceFrom].
    destruct pat as [|p pat]; [congruence|]. cbn [startsWith].
    replace (c =? p) with false; [reflexivity|].
    symmetry. apply N.eqb_neq. intros ->. apply Hc. now left.
  - simpl in Hk. simpl app. cbn [replaceFrom]. destruct k as [|k].
    + change (a :: s ++ [c]) with ((a :: s) ++ [c]).
      rewrite startsWith_snoc by exact Hc.
      destruct (startsWith (a :: s) pat) eqn:E.
      * apply startsWith_length in E. simpl in E.
        rewrite IH by lia. now rewrite app_assoc.
      * rewrite IH by lia. reflexivity.
    + apply IH. lia.
Qed.

Lemma replaceAll_upToNewline (pat rep x y : jsstring) :
  ~ In 10 pat -> pat <> [] -> upToNewline x y ->
  upToNewline (replaceAll pat rep x) (replaceAll pat rep y).
Proof.
  intros Hc Hpat [->| ->]; [now left | right].
  unfold replaceAll. apply replaceFrom_snoc; auto. lia.
Qed.

Lemma trimStart_all_white (s : jsstring) :
  forallb isWhiteSpace s = true -> trimStart s = [].
Proof.
  induction s as [|a s IH]; [reflexivity|]. simpl.
  intros H. apply andb_true_iff in H. destruct H as [-> H]. auto.
Qed.

Lemma trimStart_newline (s : jsstring) :
  trimStart (s ++ [10])
  = if forallb isWhiteSpace s then [] else trimStart s ++ [10].
Proof.
  induction s as [|a s IH]; [reflexivity|]. simpl.
  destruct (isWhiteSpace a); [exact IH | reflexivity].
Qed.

Lemma trim_newline (s : jsstring) : trim (s ++ [10]) = trim s.
Proof.
  unfold trim. rewrite trimStart_newline.
  destruct (forallb isWhiteSpace s) eqn:E.
  - now rewrite trimStart_all_white.
  - unfold trimEnd. now rewrite rev_app_distr.
Qed.

Lemma startsWithIgnoreCase_newline (pat s : jsstring) :
  Forall (fun p => (canonicalize 10 =? canonicalize p) = false) pat ->
  startsWithIgnoreCase (s ++ [10]) pat = startsWithIgnoreCase s pat.
Proof.
  revert s. induction pat as [|p pat IH]; intros s H; [reflexivity|].
  inversion H as [|? ? Hp Hrest]; subst.
  destruct s as [|a s]; cbn [app startsWithIgnoreCase].
  - now rewrite Hp.
  - now rewrite IH.
Qed.

Lemma startsWithIgnoreCase_length (pat s : jsstring) :
  startsWithIgnoreCase s pat = true ->
  (List.length pat <= List.length s)%nat.
Proof.
  revert s. induction pat as [|p pat IH]; intros s H; simpl; [lia|].
  destruct s as [|a s]; simpl in *; [discriminate|].
  apply andb_true_iff in H. destruct H as [_ H]. apply IH in H. lia.
Qed.

Lemma stripKeyword_upToNewline (x y : jsstring) :
  upToNewline x y -> upToNewline (stripKeyword x) (stripKeyword y).
Proof.
  intros [->| ->]; [now left|]. unfold stripKeyword.
  rewrite startsWithIgnoreCase_newline by (repeat constructor).
  destruct (startsWithIgnoreCase y (u "mermaid")) eqn:E; [|now right].
  apply startsWithIgnoreCase_length in E. change (List.length (u "mermaid"))
    with 7%nat in E.
  rewrite skipn_app. replace (7 - List.length y)%nat with 0%nat by lia.
  change (skipn 0 [10]) with [10].
  rewrite trimStart_newline. unfold upToNewline.
  destruct (forallb isWhiteSpace (skipn 7 y)) eqn:Ews.
  - left. rewrite trimStart_all_white by exact Ews. reflexivity.
  - right. reflexivity.
Qed.

Lemma cleanupChain_newline (chart : jsstring) :
  cleanupChain (chart ++ [10]) = cleanupChain chart.
Proof.
  unfold cleanupChain.
  assert (H : upToNewline (chart ++ [10]) chart) by now right.
  apply (replaceAll_upToNewline (u "&gt;") (u ">")) in H;
    [|vm_compute; intuition discriminate | discriminate].
  apply (replaceAll_upToNewline (u "&lt;") (u "<")) in H;
    [|vm_compute; intuition discriminate | discriminate].
  apply (replaceAll_upToNewline (u "&quot;") [dquote]) in H;
    [|vm_compute; intuition discriminate | discriminate].
  apply (replaceAll_upToNewline (u "```mermaid") []) in H;
    [|vm_compute; intuition discriminate | discriminate].
  apply (replaceAll_upToNewline (u "```") []) in H;
    [|vm_compute; intuition discriminate | discriminate].
  apply stripKeyword_upToNewline in H.
  apply (replaceAll_upToNewline (u "graph TD") (u "flowchart TD")) in H;
    [|vm_compute; intuition discriminate | discriminate].
  apply (replaceAll_upToNewline [semicolon] []) in H;
    [|vm_compute; intuition discriminate | discriminate].
  destruct H as [->|H]; [reflexivity|]. rewrite H. apply trim_newline.
Qed.

Lemma endsWith_unit (c : N) (s : jsstring) :
  endsWith s [c] = true -> s = dropLast s ++ [c].
Proof.
  unfold endsWith, dropLast.
  destruct s as [|a s] using rev_ind; [discriminate|].
  rewrite rev_app_distr. simpl. rewrite andb_true_r. intros E.
  apply N.eqb_eq in E. subst. now rewrite removelast_last.
Qed.

(** X2: The line feed that the code renderer drops makes no difference to what
    the component does with the chart: the same charts are taken as blank,
    and the engine gets the same text. *)
Theorem final_newline_is_immaterial (children : jsstring) :
  renderRequest (stripFinalNewline children) = renderRequest children /\
  cleanChart (children ++ [10]) = cleanChart children.
Proof.
  assert (Hclean : forall s, cleanChart (s ++ [10]) = cleanChart s).
  { intros s. unfold cleanChart. now rewrite cleanupChain_newline. }
  split; [|apply Hclean].
  unfold stripFinalNewline.
  destruct (endsWith children [10]) eqn:E; [|reflexivity].
  apply endsWith_unit in E. set (s := dropLast children) in *.
  rewrite E. unfold renderRequest, isBlank.
  rewrite Hclean, trim_newline.
  destruct s as [|a s]; [reflexivity|]. reflexivity.
Qed.

End FinalNewline.

Section BlankChart.

Import Mermaid Chart.

Lemma trimStart_nil (s : jsstring) :
  trimStart s = [] -> forallb isWhiteSpace s = true.
Proof.
  induction s as [|a s IH]; [reflexivity|]. simpl.
  destruct (isWhiteSpace a); [exact IH | discriminate].
Qed.

Lemma trim_nil (s : jsstring) :
  trim s = [] -> forallb isWhiteSpace s = true.
Proof.
  unfold trim, trimEnd. intros H.
  apply (f_equal (@rev N)) in H. rewrite rev_involutive in H. simpl in H.
  apply trimStart_nil in H. apply trimStart_nil.
  pose proof (trimStart_hd s) as Hhd.
  destruct (trimStart s) as [|a t]; [reflexivity|].
  simpl in H, Hhd. rewrite forallb_app in H.
  apply andb_true_iff in H. destruct H as [_ H]. simpl in H.
  rewrite Hhd in H. discriminate H.
Qed.

Lemma all_white_absent (s : jsstring) (c : N) :
  forallb isWhiteSpace s = true -> isWhiteSpace c = false -> ~ In c s.
Proof.
  intros Hs Hc Hin. rewrite forallb_forall in Hs.
  apply Hs in Hin. congruence.
Qed.

Lemma isBlank_trim (chart : jsstring) :
  isBlank chart = true -> trim chart = [].
Proof.
  unfold isBlank. destruct chart as [|a s]; [reflexivity|].
  cbn [truthy negb orb].
  destruct (trim (a :: s)); [reflexivity | discriminate].
Qed.

Lemma white_is_no_m (a : N) :
  isWhiteSpace a = true -> (canonicalize a =? canonicalize 109) = false.
Proof.
  intros Ha. apply N.eqb_neq. intros E. unfold canonicalize in E.
  change ((97 <=? 109) && (109 <=? 122)) with true in E. cbn iota in E.
  destruct ((97 <=? a) && (a <=? 122)) eqn:Er.
  - assert (a = 109) by (change (109 - 32) with 77 in E; lia).
    subst a. discriminate Ha.
  - change (109 - 32) with 77 in E. subst a. discriminate Ha.
Qed.

(** X3: A chart that the guard of the render effect takes as blank would be
    cleaned to the empty text: the guard holds back no chart that has
    something to render. *)
Theorem blank_chart_cleans_to_nothing (chart : jsstring) :
  isBlank chart = true ->
  renderRequest chart = None /\ cleanChart chart = [].
Proof.
  intros Hblank. split; [unfold renderRequest; now rewrite Hblank|].
  pose proof (isBlank_trim chart Hblank) as Htrim.
  pose proof (trim_nil chart Htrim) as Hwhite.
  assert (Hkeep : forall pat rep c,
             In c pat -> isWhiteSpace c = false ->
             replaceAll pat rep chart = chart).
  { intros pat rep c Hin Hc. apply replaceAll_absent.
    apply (includes_In pat chart c Hin).
    now apply all_white_absent. }
  unfold cleanChart, cleanupChain.
  rewrite (Hkeep (u "&gt;") (u ">") 38) by (vm_compute; tauto).
  rewrite (Hkeep (u "&lt;") (u "<") 38) by (vm_compute; tauto).
  rewrite (Hkeep (u "&quot;") [dquote] 38) by (vm_compute; tauto).
  rewrite (Hkeep (u "```mermaid") [] 96) by (vm_compute; tauto).
  rewrite (Hkeep (u "```") [] 96) by (vm_compute; tauto).
  assert (Hkw : stripKeyword chart = chart).
  { unfold stripKeyword. destruct chart as [|a s]; [reflexivity|].
    change (u "mermaid") with (109 :: u "ermaid").
    cbn [startsWithIgnoreCase]. rewrite white_is_no_m; [reflexivity|].
    simpl in Hwhite. now apply andb_true_iff in Hwhite. }
  rewrite Hkw.
  rewrite (Hkeep (u "graph TD") (u "flowchart TD") 103) by (vm_compute; tauto).
  rewrite (Hkeep [semicolon] [] semicolon) by (vm_compute; tauto).
  now rewrite Htrim.
Qed.

Lemma blank_chart_cleans_to_nothing_witness :
  renderRequest [32; 10; 9] = None /\ cleanChart [32; 10; 9] = [].
Proof. apply blank_chart_cleans_to_nothing. reflexivity. Defined.

(** The converse fails: a chart of removable text passes the guard and the
    engine is asked to render the empty text. *)
Example removable_chart_is_rendered :
  renderRequest (u "```mermaid;") = Some [].
Proof. reflexivity. Qed.

(** X4: Whatever the chart, the cleaned text has no white space at either end
    and none of the three entities. *)
Theorem cleanChart_shape (chart : jsstring) :
  trimmed (cleanChart chart) /\
  includes (cleanChart chart) (u "&gt;") = false /\
  includes (cleanChart chart) (u "&lt;") = false /\
  includes (cleanChart chart) (u "&quot;") = false.
Proof.
  split; [apply cleanChart_trimmed|].
  repeat split; apply (includes_In _ _ semicolon);
    try apply cleanChart_no_semicolon; vm_compute; tauto.
Qed.

End BlankChart.

Section ZoomMore.

Import Mermaid.

Local Open Scope float_scope.

Ltac on_each_level H tac :=
  unfold zoomLevels in H; simpl In in H;
  repeat (destruct H as [H|H]; [subst; tac|]); try destruct H.

(** X5: On every level the overlay can reach, zooming in and then out gives the
    level back, except at 5, where the step in is cut and the step out
    lands on 4.75; and the same the other way round, with 0.5 and 0.75. *)
Theorem zoom_in_out_round_trip (es : list Event) :
  zoomLevel (handleZoomOut (handleZoomIn (run mounted es)))
  = (if PrimFloat.eqb (zoomLevel (run mounted es)) 5 then 4.75
     else zoomLevel (run mounted es)) /\
  zoomLevel (handleZoomIn (handleZoomOut (run mounted es)))
  = (if PrimFloat.eqb (zoomLevel (run mounted es)) 0.5 then 0.75
     else zoomLevel (run mounted es)).
Proof.
  pose proof (run_level es mounted one_level) as H.
  destruct (run mounted es) as [b z].
  cbv [handleZoomIn handleZoomOut setZoomLevel zoomLevel isZoomed] in *.
  on_each_level H ltac:(split; reflexivity).
Qed.

(** X6: The overlay opens at level 1: a click on the thumbnail of a closed
    overlay gives the open overlay at 1, whatever was done before. *)
Theorem overlay_opens_at_one (es : list Event) :
  step (run mounted es) ThumbnailClick
  = mkZoom true
      (if isZoomed (run mounted es) then zoomLevel (run mounted es) else 1).
Proof.
  assert (H : closedAtOne (run mounted es)).
  { apply run_closedAtOne. unfold closedAtOne. reflexivity. }
  unfold closedAtOne in H. destruct (run mounted es) as [[|] z];
    cbv [step handle resetEffect setIsZoomed isZoomed zoomLevel Bool.eqb];
    [reflexivity|].
  simpl in H. now rewrite H.
Qed.

End ZoomMore.

(** ** More on the chat page *)

Section BackendAddress.

Import Page PageFlow.

Lemma startsWith_app_l (s rest pat : jsstring) :
  startsWith s pat = true -> startsWith (s ++ rest) pat = true.
Proof.
  revert s. induction pat as [|p pat IH]; intros s H; [reflexivity|].
  destruct s as [|a s]; simpl in *; [discriminate|].
  apply andb_true_iff in H. destruct H as [-> H]. simpl. auto.
Qed.

Lemma endsWith_snoc (s : jsstring) (c : N) : endsWith (s ++ [c]) [c] = true.
Proof.
  unfold endsWith. rewrite rev_app_distr. simpl. now rewrite N.eqb_refl.
Qed.

(** X7: The address of the backend always starts with [http], and it is the
    local address when the environment gives none or an empty one. *)
Theorem getApiUrl_has_scheme (envUrl : option jsstring) :
  startsWith (getApiUrl envUrl) (u "http") = true /\
  getApiUrl None = u "http://127.0.0.1:8000" /\
  getApiUrl (Some []) = u "http://127.0.0.1:8000".
Proof.
  split; [|split; reflexivity].
  unfold getApiUrl.
  set (url := match envUrl with
              | Some e => orElse e (u "http://127.0.0.1:8000")
              | None => u "http://127.0.0.1:8000"
              end).
  set (full := if negb (startsWith url (u "http")) then u "https://" ++ url
               else url).
  assert (Hfull : startsWith full (u "http") = true).
  { unfold full. destruct (startsWith url (u "http")) eqn:E;
      [exact E | reflexivity]. }
  destruct (endsWith full (u "/")) eqn:E; [|exact Hfull].
  apply endsWith_unit in E. rewrite E in Hfull.
  rewrite startsWith_snoc in Hfull; [exact Hfull|].
  vm_compute. intuition discriminate.
Qed.

(** X8: One slash at the end of an address with a scheme is dropped, and only
    one; an address with a scheme and no slash at the end is kept. *)
Theorem getApiUrl_drops_one_slash (e : jsstring) :
  startsWith e (u "http") = true ->
  getApiUrl (Some (e ++ u "/")) = e /\
  (endsWith e (u "/") = false -> getApiUrl (Some e) = e).
Proof.
  intros He. assert (Hne : truthy e = true).
  { destruct e; [discriminate He | reflexivity]. }
  split.
  - unfold getApiUrl, orElse.
    replace (truthy (e ++ u "/")) with true by (now destruct e).
    rewrite (startsWith_app_l e (u "/") _ He). cbn [negb].
    change (u "/") with [47]. rewrite endsWith_snoc.
    unfold dropLast. apply removelast_last.
  - intros Hend. unfold getApiUrl, orElse. rewrite Hne, He. cbn [negb].
    now rewrite Hend.
Qed.

Lemma getApiUrl_drops_one_slash_witness :
  getApiUrl (Some (u "https://api.example.run.app//"))
  = u "https://api.example.run.app/".
Proof.
  apply (proj1 (getApiUrl_drops_one_slash (u "https://api.example.run.app/")
                  eq_refl)).
Defined.

End BackendAddress.

Section SessionIds.

Import Page PageFlow.

Lemma u_injective (a b : string) : u a = u b -> a = b.
Proof.
  unfold u. intros H.
  rewrite <- (string_of_list_ascii_of_string a).
  rewrite <- (string_of_list_ascii_of_string b). f_equal.
  revert H. generalize (list_ascii_of_string a) (list_ascii_of_string b).
  induction l as [|x l IH]; intros [|y l'] H; simpl in H;
    try discriminate; [reflexivity|].
  inversion H as [[Hx Hl]]. f_equal; [|now apply IH].
  rewrite <- (ascii_N_embedding x), <- (ascii_N_embedding y). now rewrite Hx.
Qed.

Lemma toString_injective (n m : N) : toString n = toString m -> n = m.
Proof.
  unfold toString. intros H. apply u_injective in H.
  assert (Hu : N.to_uint n = N.to_uint m).
  { apply (f_equal NilEmpty.uint_of_string) in H.
    rewrite !NilEmpty.usu in H. now inversion H. }
  rewrite <- (DecimalN.Unsigned.of_to n), <- (DecimalN.Unsigned.of_to m).
  now rewrite Hu.
Qed.

(** X9: Two new sessions have the same id exactly when the clock showed the same
    millisecond at their creation. *)
Theorem session_ids_follow_clock (n m : N) (url1 url2 : jsstring) :
  id (newChat n url1) = id (newChat m url2) <-> n = m.
Proof.
  split; [|now intros ->]. unfold newChat. cbn [id]. intros H.
  apply app_inv_head in H. now apply toString_injective.
Qed.

End SessionIds.

Section Deleting.

Import Page PageFlow Scenario.

Lemma findSession_filter_other (a sid : jsstring) (l : list ChatSession) :
  eqb a sid = false ->
  findSession a (filter (fun s => negb (eqb (id s) sid)) l) = findSession a l.
Proof.
  intros Hne. unfold findSession. induction l as [|s l IH]; [reflexivity|].
  simpl. destruct (eqb (id s) sid) eqn:E1; simpl.
  - destruct (eqb (id s) a) eqn:E2; [|exact IH].
    apply eqb_eq in E1, E2. rewrite <- E1, <- E2, eqb_refl in Hne.
    discriminate Hne.
  - now rewrite IH.
Qed.

Lemma filter_nil_all (sid : jsstring) (l : list ChatSession) :
  filter (fun s => negb (eqb (id s) sid)) l = [] ->
  forall s, In s l -> id s = sid.
Proof.
  intros H s Hin. destruct (eqb (id s) sid) eqn:E; [now apply eqb_eq|].
  assert (Hs : In s (filter (fun s => negb (eqb (id s) sid)) l)).
  { apply filter_In. split; [exact Hin | now rewrite E]. }
  rewrite H in Hs. destruct Hs.
Qed.

(** X10: A confirmed deletion removes every session with the id and keeps the
    others in their order, in the cell and in the store, as long as the
    deleted session is not the active one or some other session is left. *)
Theorem deleted_session_is_gone (st : State) (sid : jsstring) (now : N) :
  isActive st sid = false \/
  filter (fun s => negb (eqb (id s) sid)) (sessions st) <> [] ->
  sessions (deleteSession true now sid st)
    = filter (fun s => negb (eqb (id s) sid)) (sessions st) /\
  chat_history (deleteSession true now sid st)
    = Parsed (filter (fun s => negb (eqb (id s) sid)) (sessions st)) /\
  existsb (fun s => eqb (id s) sid) (sessions (deleteSession true now sid st))
    = false.
Proof.
  intros H.
  assert (Hs : sessions (deleteSession true now sid st)
               = filter (fun s => negb (eqb (id s) sid)) (sessions st) /\
               chat_history (deleteSession true now sid st)
               = Parsed (filter (fun s => negb (eqb (id s) sid)) (sessions st))).
  { unfold deleteSession. cbn [negb].
    destruct (isActive st sid); [|split; reflexivity].
    destruct (filter _ (sessions st)) as [|first rest] eqn:E;
      [|split; reflexivity].
    destruct H as [H|H]; [discriminate H | congruence]. }
  destruct Hs as [Hs Hh]. split; [exact Hs|]. split; [exact Hh|].
  rewrite Hs. clear. induction (sessions st) as [|s l IH]; [reflexivity|].
  simpl. destruct (eqb (id s) sid) eqn:E; simpl; [exact IH|].
  now rewrite E.
Qed.

Lemma deleted_session_is_gone_witness :
  sessions (deleteSession true 20 (id sessionB) (three sessionA []))
  = [sessionA; sessionC].
Proof.
  apply (proj1 (deleted_session_is_gone (three sessionA []) (id sessionB) 20
                  (or_introl eq_refl))).
Defined.

(** X11: Deleting the active session when no session with another id is left
    deletes nothing: a fresh session is put in front of the whole former
    collection, in the cell and in the store, so every session that was to
    go is still listed. *)
Theorem deleting_the_last_keeps_it (st : State) (sid : jsstring) (now : N) :
  isActive st sid = true ->
  filter (fun s => negb (eqb (id s) sid)) (sessions st) = [] ->
  sessions (deleteSession true now sid st) = newChat now [] :: sessions st /\
  chat_history (deleteSession true now sid st)
    = Parsed (newChat now [] :: sessions st) /\
  (forall s, In s (sessions st) ->
     id s = sid /\ In s (sessions (deleteSession true now sid st))).
Proof.
  intros Hactive Hnone.
  assert (Hs : sessions (deleteSession true now sid st)
               = newChat now [] :: sessions st /\
               chat_history (deleteSession true now sid st)
               = Parsed (newChat now [] :: sessions st)).
  { unfold deleteSession. cbn [negb]. rewrite Hactive, Hnone.
    split; reflexivity. }
  destruct Hs as [Hs Hh]. split; [exact Hs|]. split; [exact Hh|].
  intros s Hin. split; [now apply (filter_nil_all sid (sessions st))|].
  rewrite Hs. now right.
Qed.

Lemma deleting_the_last_keeps_it_witness :
  sessions (deleteSession true 20 (id sessionA) (single sessionA []))
  = [newChat 20 []; sessionA].
Proof.
  apply (proj1 (deleting_the_last_keeps_it (single sessionA []) (id sessionA)
                  20 eq_refl eq_refl)).
Defined.

(** X12: Deleting a session that is not the active one, or declining the dialog,
    leaves the active id, the URL cell and the transcript on screen as they
    are. *)
Theorem deleting_another_keeps_the_view (st : State) (sid : jsstring)
  (confirmed : bool) (now : N) :
  isActive st sid = false ->
  activeSessionId (deleteSession confirmed now sid st) = activeSessionId st /\
  repoUrlCell (deleteSession confirmed now sid st) = repoUrlCell st /\
  activeMessages (deleteSession confirmed now sid st) = activeMessages st.
Proof.
  intros H. unfold deleteSession. destruct confirmed; [|repeat split].
  cbn [negb]. rewrite H. repeat split.
  unfold activeMessages, isActive in *.
  cbn [saveSessions setItem setSessions activeSessionId sessions].
  destruct (activeSessionId st) as [a|]; [|reflexivity].
  now rewrite findSession_filter_other.
Qed.

Lemma deleting_another_keeps_the_view_witness :
  activeSessionId (deleteSession true 20 (id sessionC) (three sessionA []))
  = Some (id sessionA).
Proof.
  apply (proj1 (deleting_another_keeps_the_view (three sessionA [])
                  (id sessionC) true 20 eq_refl)).
Defined.




End Deleting.

Section Replies.

Import Page.

(** X14: The context of a reply is absent or a non-empty text, never the empty
    text: an empty [context_used] gives way to the sources, and the line of
    sources starts with its heading. *)
Theorem reply_context_is_never_empty (data : Answer) (now : N) :
  context (aiMsg data now) <> Some [].
Proof.
  unfold aiMsg, contextOf. cbn [context].
  change (u "Sources: ") with (83 :: u "ources: ").
  destruct (context_used data) as [[|c cs]|];
    destruct (sources data) as [l|]; cbn [truthy];
    rewrite <- ?app_comm_cons; discriminate.
Qed.

End Replies.

Section Suggesting.

Import Page.

Lemma toLowerCase_app (a b : jsstring) :
  toLowerCase (a ++ b) = toLowerCase a ++ toLowerCase b.
Proof. apply map_app. Qed.

Lemma startsWith_slash_app (val more : jsstring) :
  startsWith val (u "/") = true -> startsWith (val ++ more) (u "/") = true.
Proof. apply startsWith_app_l. Qed.

(** X15: Typing on never adds a suggestion: the commands listed for a longer
    input are among those listed for the input so far, and a panel that is
    hidden for an input starting with a slash stays hidden. *)
Theorem suggestions_shrink (val more : jsstring) (st : State) :
  startsWith val (u "/") = true ->
  incl (filteredCmds (handleInputChange (val ++ more) st))
       (filteredCmds (handleInputChange val st)) /\
  (showSuggestions (handleInputChange val st) = false ->
   showSuggestions (handleInputChange (val ++ more) st) = false).
Proof.
  intros Hval.
  assert (Hincl : incl
    (filter (fun c => startsWith (cmd c) (toLowerCase (val ++ more))) COMMANDS)
    (filter (fun c => startsWith (cmd c) (toLowerCase val)) COMMANDS)).
  { intros c Hc. apply filter_In in Hc. destruct Hc as [Hin Hc].
    apply filter_In. split; [exact Hin|].
    rewrite toLowerCase_app in Hc. now apply startsWith_app in Hc. }
  unfold handleInputChange.
  rewrite (startsWith_slash_app val more Hval), Hval.
  cbn [filteredCmds showSuggestions setShowSuggestions setFilteredCmds].
  split; [exact Hincl|].
  set (longer := filter (fun c => startsWith (cmd c)
                                    (toLowerCase (val ++ more))) COMMANDS) in *.
  set (sofar := filter (fun c => startsWith (cmd c) (toLowerCase val))
                  COMMANDS) in *.
  clearbody longer sofar.
  destruct sofar as [|c l]; [|simpl; discriminate].
  intros _. destruct longer as [|c' l']; [reflexivity|].
  exfalso. apply (Hincl c'). now left.
Qed.

Lemma suggestions_shrink_witness :
  incl (filteredCmds (handleInputChange (u "/te" ++ u "st") (initial Absent)))
       (filteredCmds (handleInputChange (u "/te") (initial Absent))).
Proof.
  apply (proj1 (suggestions_shrink (u "/te") (u "st") (initial Absent)
                  eq_refl)).
Defined.

(** X16: No command of the table is the start of another one: the full text of a
    command, in any case, lists that command alone, and with anything typed
    after it the panel is hidden.  So the panel stays away after a command
    is picked, which writes the command and a space. *)
Theorem full_command_closes_panel :
  Forall
    (fun c =>
       forall (st : State) (x : N) (rest : jsstring),
         filteredCmds (handleInputChange (cmd c) st) = [c] /\
         showSuggestions (handleInputChange (cmd c ++ x :: rest) st) = false /\
         showSuggestions
           (handleInputChange (chatInput (selectCommand (cmd c) st) ++ rest) st)
         = false)
    COMMANDS.
Proof.
  assert (Hlong : forall (c : Command) (st : State) (x : N) (rest : jsstring),
    In c COMMANDS ->
    showSuggestions (handleInputChange (cmd c ++ x :: rest) st) = false).
  { intros c st x rest Hin. unfold handleInputChange.
    simpl in Hin.
    repeat (destruct Hin as [<-|Hin];
            [cbn -[N.eqb lowerUnit];
             repeat (destruct (_ =? lowerUnit x); cbn -[N.eqb lowerUnit]);
             reflexivity|]).
    destruct Hin. }
  repeat constructor; try reflexivity;
    try (apply Hlong; simpl; tauto);
    cbn [selectCommand chatInput setChatInput setShowSuggestions];
    rewrite <- app_assoc; apply Hlong; simpl; tauto.
Qed.

End Suggesting.

Section Invariants.

Import Page PageFlow.

Ltac open_state st :=
  destruct st as [ss active url input loading shown listed stored];
  unfold wellKept, synced in *;
  cbn [sessions activeSessionId repoUrlCell chatInput chatLoading
       showSuggestions filteredCmds chat_history] in *.

Ltac close_state :=
  cbn [saveSessions loadSession setSessions setActiveSessionId setRepoUrl
       setChatInput setChatLoading setShowSuggestions setFilteredCmds setItem
       sessions activeSessionId repoUrlCell chatInput chatLoading
       showSuggestions filteredCmds chat_history fst snd negb];
  repeat split; try assumption; try discriminate; try tauto.

Lemma mount_wellKept (saved : Stored) (now : N) :
  wellKept (mount now (initial saved)).
Proof.
  destruct saved as [| |[|latest parsed]];
    unfold wellKept, synced, mount, initial, createNewSession;
    cbn [chat_history]; close_state.
Qed.

Lemma createNewSession_wellKept (now : N) (st : State) :
  wellKept st -> wellKept (createNewSession now st st).
Proof.
  open_state st. intros (Hs & Ha & Hp). unfold createNewSession. close_state.
Qed.

Lemma loadSession_wellKept (s : ChatSession) (st : State) :
  wellKept st -> wellKept (loadSession s st).
Proof. open_state st. intros (Hs & Ha & Hp). close_state. Qed.

Lemma deleteSession_wellKept (c : bool) (now : N) (sid : jsstring)
  (st : State) :
  wellKept st -> wellKept (deleteSession c now sid st).
Proof.
  open_state st. intros (Hs & Ha & Hp).
  unfold deleteSession, createNewSession.
  destruct c; cbn [negb]; [|close_state].
  destruct (isActive _ sid); [|close_state].
  cbn [sessions]. destruct (filter _ ss); close_state.
Qed.

Lemma handleIngest_wellKept (now : N) (st : State) :
  wellKept st -> wellKept (snd (handleIngest now st)).
Proof.
  open_state st. intros (Hs & Ha & Hp). unfold handleIngest.
  cbn [repoUrlCell activeSessionId sessions].
  destruct (truthy url); cbn [negb]; [|close_state].
  destruct active as [a|]; [destruct (truthy a)|]; close_state.
Qed.

Lemma handleIngest_settled_wellKept (t : IngestTurn) (ok : bool) (now : N)
  (st : State) :
  wellKept st -> wellKept (handleIngest_settled t ok now st).
Proof.
  open_state st. intros (Hs & Ha & Hp). unfold handleIngest_settled.
  destruct ok; close_state.
Qed.

Lemma handleInputChange_wellKept (val : jsstring) (st : State) :
  wellKept st -> wellKept (handleInputChange val st).
Proof.
  open_state st. intros (Hs & Ha & Hp). unfold handleInputChange.
  destruct (startsWith val (u "/")); [|close_state].
  destruct (filter _ COMMANDS); close_state.
Qed.

Lemma selectCommand_wellKept (c : jsstring) (st : State) :
  wellKept st -> wellKept (selectCommand c st).
Proof.
  open_state st. intros (Hs & Ha & Hp). unfold selectCommand. close_state.
Qed.

Lemma handleChat_wellKept (nowId nowMsg : N) (st : State) :
  wellKept st -> wellKept (snd (handleChat nowId nowMsg st)).
Proof.
  open_state st. intros (Hs & Ha & Hp). unfold handleChat.
  cbn [chatInput activeSessionId sessions repoUrlCell].
  destruct (truthy input); cbn [negb]; [|close_state].
  destruct active as [a|]; [destruct (truthy a)|]; close_state.
Qed.

Lemma handleChat_settled_wellKept (t : Turn) (o : Outcome) (now : N)
  (st : State) :
  wellKept st -> wellKept (handleChat_settled t o now st).
Proof.
  open_state st. intros (Hs & Ha & Hp). unfold handleChat_settled.
  close_state.
Qed.

Lemma act_wellKept (w : World) (a : Action) :
  wellKept (page w) -> wellKept (page (act w a)).
Proof.
  intros H. destruct a; unfold act, onPage; cbn [page].
  - now apply createNewSession_wellKept.
  - destruct (nth_error _ k); [now apply loadSession_wellKept | exact H].
  - destruct (nth_error _ k); [now apply deleteSession_wellKept | exact H].
  - revert H. generalize (page w). intros st. open_state st.
    intros (Hs & Ha & Hp). close_state.
  - pose proof (handleIngest_wellKept now (page w) H) as H'.
    destruct (handleIngest now (page w)) as [[t|] st]; exact H'.
  - destruct (nth_error _ k); [|exact H].
    now apply handleIngest_settled_wellKept.
  - now apply handleInputChange_wellKept.
  - destruct (nth_error _ k); [now apply selectCommand_wellKept | exact H].
  - pose proof (handleChat_wellKept nowId nowMsg (page w) H) as H'.
    destruct (handleChat nowId nowMsg (page w)) as [[t|] st]; exact H'.
  - destruct (nth_error _ k); [|exact H].
    now apply handleChat_settled_wellKept.
  - revert H. generalize (page w). intros st. open_state st.
    intros (Hs & Ha & Hp). close_state.
Qed.

Lemma runPage_wellKept (actions : list Action) :
  forall w, wellKept (page w) -> wellKept (page (runPage w actions)).
Proof.
  unfold runPage. induction actions as [|a actions IH]; intros w H;
    [exact H|].
  simpl. apply IH. now apply act_wellKept.
Qed.

(** X17: Whatever is stored when the page mounts and whatever is done on it
    afterwards, in any order and with calls settling at any time: the
    stored collection is the one on screen, some session id is active, and
    the panel of suggestions is shown exactly when it lists a command (its
    text for no matching command never shows). *)
Theorem page_is_well_kept (saved : Stored) (now : N)
  (actions : list Action) :
  chat_history (page (runPage (mountedWorld saved now) actions))
    = Parsed (sessions (page (runPage (mountedWorld saved now) actions))) /\
  activeSessionId (page (runPage (mountedWorld saved now) actions)) <> None /\
  showSuggestions (page (runPage (mountedWorld saved now) actions))
    = match suggestions (page (runPage (mountedWorld saved now) actions)) with
      | [] => false
      | _ :: _ => true
      end.
Proof.
  pose proof (runPage_wellKept actions (mountedWorld saved now)
                (mount_wellKept saved now)) as (Hs & Ha & Hp).
  split; [exact Hs|]. split; [exact Ha|].
  unfold suggestions.
  destruct (showSuggestions _) eqn:E; [|reflexivity].
  specialize (Hp eq_refl).
  destruct (filteredCmds _); [congruence | reflexivity].
Qed.

End Invariants.

Section Turns.

Import Page PageFlow Scenario Scenario2.

Lemma map_withUser_absent (a input url : jsstring) (m : Message)
  (l : list ChatSession) :
  existsb (fun s => eqb (id s) a) l = false ->
  map (withUser a input url m) l = l.
Proof.
  induction l as [|s l IH]; [reflexivity|]. simpl. intros H.
  apply orb_false_iff in H. destruct H as [Hs Hl].
  unfold withUser at 1. rewrite Hs. f_equal. auto.
Qed.

Lemma map_appendTo_absent (a : jsstring) (m : Message)
  (l : list ChatSession) :
  existsb (fun s => eqb (id s) a) l = false -> map (appendTo a m) l = l.
Proof.
  induction l as [|s l IH]; [reflexivity|]. simpl. intros H.
  apply orb_false_iff in H. destruct H as [Hs Hl].
  unfold appendTo at 1. rewrite Hs. f_equal. auto.
Qed.

Lemma findSession_absent (a : jsstring) (l : list ChatSession) :
  existsb (fun s => eqb (id s) a) l = false -> findSession a l = None.
Proof.
  unfold findSession. induction l as [|s l IH]; [reflexivity|]. simpl.
  intros H. apply orb_false_iff in H. destruct H as [-> Hl]. auto.
Qed.

(** X18: When the active id is the id of no listed session, a message that is
    sent is stored nowhere: the collection stays as it is, the input is
    cleared all the same, the transcript on screen stays empty, and the
    reply is dropped as well. *)
Theorem unlisted_active_drops_message (st : State) (a : jsstring)
  (nowId nowMsg : N) :
  truthy (chatInput st) = true ->
  activeSessionId st = Some a ->
  truthy a = true ->
  existsb (fun s => eqb (id s) a) (sessions st) = false ->
  sessions (snd (handleChat nowId nowMsg st)) = sessions st /\
  chatInput (snd (handleChat nowId nowMsg st)) = [] /\
  activeMessages (snd (handleChat nowId nowMsg st)) = [] /\
  (forall (t : Turn) (o : Outcome) (now : N),
     fst (handleChat nowId nowMsg st) = Some t ->
     sessions (handleChat_settled t o now (snd (handleChat nowId nowMsg st)))
     = sessions st).
Proof.
  intros Hinput Hactive Ha Habsent. unfold handleChat.
  rewrite Hinput, Hactive, Ha. cbn [negb fst snd].
  rewrite (map_withUser_absent _ _ _ _ _ Habsent).
  split; [reflexivity|]. split; [reflexivity|]. split.
  - unfold activeMessages.
    cbn [saveSessions setChatLoading setChatInput setShowSuggestions setItem
         setSessions activeSessionId sessions].
    now rewrite Hactive, (findSession_absent _ _ Habsent).
  - intros t o now Ht. inversion Ht; subst t; clear Ht.
    unfold handleChat_settled.
    cbn [saveSessions setChatLoading setItem setSessions sessions
         currentSessionId updatedWithUser].
    now apply map_appendTo_absent.
Qed.

Lemma unlisted_active_drops_message_witness :
  activeSessionId strandedPage = Some (u "sess_3") /\
  map id (sessions strandedPage) = [u "sess_1"] /\
  chatInput strandedPage = u "second" /\
  sessions (snd (handleChat 5 6 strandedPage)) = sessions strandedPage /\
  chatInput (snd (handleChat 5 6 strandedPage)) = [].
Proof.
  split; [reflexivity|]. split; [reflexivity|]. split; [reflexivity|].
  pose proof (unlisted_active_drops_message strandedPage (u "sess_3") 5 6
                eq_refl eq_refl eq_refl eq_refl) as H.
  exact (conj (proj1 H) (proj1 (proj2 H))).
Defined.

(** X19: A turn from start to settlement, with nothing in between, in a listed
    active session: the transcript on screen grows by the question and the
    reply (or the error message), no session is added, removed or moved,
    the input is cleared and the loading flag is set during the call and
    cleared after it. *)
Theorem complete_turn (st : State) (a : jsstring) (s : ChatSession)
  (nowId nowMsg : N) (o : Outcome) (now : N) :
  truthy (chatInput st) = true ->
  activeSessionId st = Some a ->
  truthy a = true ->
  findSession a (sessions st) = Some s ->
  match handleChat nowId nowMsg st with
  | (Some t, st1) =>
      activeMessages (handleChat_settled t o now st1)
        = messages s ++ [mkMessage user (chatInput st) None nowMsg; reply o now]
      /\ map id (sessions (handleChat_settled t o now st1))
         = map id (sessions st)
      /\ chatInput (handleChat_settled t o now st1) = []
      /\ chatLoading st1 = true
      /\ chatLoading (handleChat_settled t o now st1) = false
  | (None, _) => False
  end.
Proof.
  intros Hinput Hactive Ha Hs. unfold handleChat.
  rewrite Hinput, Hactive, Ha. cbn [negb].
  unfold handleChat_settled, activeMessages.
  cbn [saveSessions setChatLoading setChatInput setShowSuggestions setItem
       setSessions activeSessionId sessions chatInput chatLoading
       currentSessionId updatedWithUser].
  rewrite Hactive.
  rewrite !findSession_map by
    (intros; first [apply appendTo_id | apply withUser_id]).
  rewrite Hs. cbn [option_map].
  pose proof (findSession_id _ _ _ Hs) as Hid.
  split; [|split; [|repeat split]].
  - unfold appendTo. rewrite withUser_id, Hid. unfold withUser.
    rewrite Hid. cbn [messages]. now rewrite <- app_assoc.
  - rewrite !map_map. apply map_ext. intros x.
    now rewrite appendTo_id, withUser_id.
Qed.

Lemma complete_turn_witness :
  match handleChat 1 2 (three sessionB (u "hello")) with
  | (Some t, st1) =>
      map content (activeMessages (handleChat_settled t Rejected 3 st1))
      = [u "hello"; errorText]
  | (None, _) => False
  end.
Proof.
  pose proof (complete_turn (three sessionB (u "hello")) (id sessionB)
                sessionB 1 2 Rejected 3 eq_refl eq_refl eq_refl eq_refl) as H.
  destruct (handleChat 1 2 (three sessionB (u "hello"))) as [[t|] st1];
    [|exact H].
  destruct H as [H _]. rewrite H. reflexivity.
Defined.

Lemma ingested_id (a url : jsstring) (m : Message) (s : ChatSession) :
  id (ingested a url m s) = id s.
Proof. unfold ingested. now destruct (eqb (id s) a). Qed.

(** X20: Loading a repository into the active session before the first question
    takes the automatic title away: the acknowledgement is then the first
    message, so the question that follows leaves the title as it was, also
    in a session that had no message.  The session takes the URL of the
    cell. *)
Theorem loaded_repo_blocks_title (st : State) (a : jsstring)
  (s : ChatSession) (nowIngest nowAck nowId nowMsg : N) :
  truthy (repoUrlCell st) = true ->
  truthy (chatInput st) = true ->
  activeSessionId st = Some a ->
  truthy a = true ->
  findSession a (sessions st) = Some s ->
  match handleIngest nowIngest st with
  | (Some t, st0) =>
      activeMessages (handleIngest_settled t true nowAck st0)
        = messages s ++ [mkMessage ai ackText None nowAck] /\
      option_map repoUrl
        (findSession a (sessions (handleIngest_settled t true nowAck st0)))
        = Some (repoUrlCell st) /\
      option_map title
        (findSession a
           (sessions
              (snd (handleChat nowId nowMsg
                      (handleIngest_settled t true nowAck st0)))))
        = Some (title s)
  | (None, _) => False
  end.
Proof.
  intros Hurl Hinput Hactive Ha Hs. unfold handleIngest.
  rewrite Hurl, Hactive, Ha. cbn [negb].
  pose proof (findSession_id _ _ _ Hs) as Hid.
  assert (Hfound :
    findSession a
      (map (ingested a (repoUrlCell st) (mkMessage ai ackText None nowAck))
         (sessions st))
    = Some (mkSession (id s) (title s)
              (messages s ++ [mkMessage ai ackText None nowAck])
              (repoUrlCell st))).
  { rewrite findSession_map by (intros; apply ingested_id).
    rewrite Hs. cbn [option_map]. unfold ingested. now rewrite Hid. }
  unfold handleIngest_settled.
  cbn [ingestSessionId ingestSessions ingestUrl].
  split; [|split].
  - unfold activeMessages.
    cbn [saveSessions setItem setSessions activeSessionId sessions].
    now rewrite Hactive, Hfound.
  - cbn [saveSessions setItem setSessions sessions]. now rewrite Hfound.
  - unfold handleChat.
    cbn [saveSessions setItem setSessions chatInput activeSessionId sessions
         repoUrlCell].
    rewrite Hinput, Hactive, Ha.
    cbn [negb snd saveSessions setChatLoading setChatInput setShowSuggestions
         setItem setSessions sessions].
    rewrite findSession_map by (intros; apply withUser_id).
    rewrite Hfound. cbn [option_map]. unfold withUser. cbn [id messages].
    rewrite Hid. destruct (messages s); reflexivity.
Qed.

Lemma loaded_repo_blocks_title_witness :
  match handleIngest 1 (setRepoUrl (u "https://github.com/a/b")
                          (single untitled (u "What is this?"))) with
  | (Some t, st0) =>
      option_map title
        (findSession (u "sess_1")
           (sessions
              (snd (handleChat 3 4 (handleIngest_settled t true 2 st0)))))
      = Some []
  | (None, _) => False
  end.
Proof.
  pose proof (loaded_repo_blocks_title
                (setRepoUrl (u "https://github.com/a/b")
                   (single untitled (u "What is this?")))
                (u "sess_1") untitled 1 2 3 4
                eq_refl eq_refl eq_refl eq_refl eq_refl) as H.
  destruct (handleIngest 1 _) as [[t|] st0]; [|exact H].
  exact (proj2 (proj2 H)).
Defined.

End Turns.

Section DeadBranch.

Import Page PageFlow Scenario.

Lemma new_id_truthy (now : N) (url : jsstring) :
  truthy (id (newChat now url)) = true.
Proof. reflexivity. Qed.

Lemma idsTruthy_map (f : ChatSession -> ChatSession) (l : list ChatSession) :
  (forall s, id (f s) = id s) -> idsTruthy l -> idsTruthy (map f l).
Proof.
  intros Hf H. unfold idsTruthy in *. rewrite Forall_forall in *.
  intros s Hs. apply in_map_iff in Hs. destruct Hs as [s0 [<- Hin]].
  rewrite Hf. auto.
Qed.

Lemma idsTruthy_filter (p : ChatSession -> bool) (l : list ChatSession) :
  idsTruthy l -> idsTruthy (filter p l).
Proof.
  unfold idsTruthy. rewrite !Forall_forall. intros H s Hs.
  apply filter_In in Hs. now apply H.
Qed.

Lemma without_In {A : Type} (k : nat) (l : list A) (x : A) :
  In x (without k l) -> In x l.
Proof.
  unfold without. revert l. induction k as [|k IH]; intros [|a l] H;
    simpl in *; auto.
  destruct H as [H|H]; auto.
Qed.

Lemma Forall_without {A : Type} (P : A -> Prop) (k : nat) (l : list A) :
  Forall P l -> Forall P (without k l).
Proof.
  rewrite !Forall_forall. intros H x Hx. apply H.
  now apply (without_In k).
Qed.

Lemma mount_idsKept (saved : Stored) (now : N) :
  storedIdsTruthy saved -> idsKept (mountedWorld saved now).
Proof.
  intros H. unfold idsKept, mountedWorld, mount, initial, createNewSession.
  destruct saved as [| |[|latest parsed]];
    cbn [page chats ingests chat_history sessions activeSessionId
         saveSessions loadSession setSessions setActiveSessionId setRepoUrl
         setItem];
    (split; [eexists; split; [reflexivity|]|]);
    try reflexivity; try (repeat split; repeat constructor; fail).
  - simpl in H. now inversion H.
  - repeat split; [exact H | constructor | constructor].
Qed.

Lemma deleteSession_idsKept (w : World) (c : bool) (now : N) (s : ChatSession) :
  In s (sessions (page w)) -> idsKept w ->
  idsKept (onPage (deleteSession c now (id s)) w).
Proof.
  intros Hin ((a & Ha & Hta) & Hids & Hchats & Hingests).
  unfold idsKept, onPage. cbn [page chats ingests].
  split; [|split; [|split; assumption]].
  - unfold deleteSession. destruct c; cbn [negb]; [|eauto].
    destruct (isActive (page w) (id s)); [|cbn; eauto].
    destruct (filter _ (sessions (page w))) as [|first rest] eqn:E.
    + eexists. split; [reflexivity | apply new_id_truthy].
    + exists (id first). split; [reflexivity|].
      assert (Hf : In first (filter (fun x => negb (eqb (id x) (id s)))
                               (sessions (page w)))) by (rewrite E; now left).
      apply filter_In in Hf. destruct Hf as [Hf _].
      unfold idsTruthy in Hids. rewrite Forall_forall in Hids. auto.
  - unfold deleteSession. destruct c; cbn [negb]; [|exact Hids].
    destruct (isActive (page w) (id s));
      [|cbn; now apply idsTruthy_filter].
    destruct (filter _ (sessions (page w))) as [|first rest] eqn:E.
    + cbn. constructor; [reflexivity | exact Hids].
    + cbn. rewrite <- E. now apply idsTruthy_filter.
Qed.

Lemma act_idsKept (w : World) (a : Action) : idsKept w -> idsKept (act w a).
Proof.
  intros H. pose proof H as ((a0 & Ha & Hta) & Hids & Hchats & Hingests).
  destruct a; unfold act.
  - unfold idsKept, onPage, createNewSession. cbn.
    split; [eexists; split; [reflexivity | reflexivity]|].
    split; [constructor; [reflexivity | exact Hids]|]. now split.
  - destruct (nth_error _ k) as [s|] eqn:E; [|exact H].
    apply nth_error_In in E. unfold idsKept, onPage, loadSession. cbn.
    split; [|now repeat split].
    exists (id s). split; [reflexivity|].
    unfold idsTruthy in Hids. rewrite Forall_forall in Hids. auto.
  - destruct (nth_error _ k) as [s|] eqn:E; [|exact H].
    apply nth_error_In in E. now apply deleteSession_idsKept.
  - unfold idsKept, onPage. cbn. split; [eauto | now repeat split].
  - unfold handleIngest. rewrite Ha, Hta.
    destruct (truthy (repoUrlCell (page w))); cbn [negb];
      unfold idsKept; cbn [page chats ingests];
      (split; [eauto|]); (split; [exact Hids|]); (split; [exact Hchats|]);
      [|exact Hingests].
    apply Forall_app. split; [exact Hingests|]. now repeat constructor.
  - destruct (nth_error _ k) as [t|] eqn:E; [|exact H].
    apply nth_error_In in E.
    assert (Ht : idsTruthy (ingestSessions t)).
    { rewrite Forall_forall in Hingests. auto. }
    unfold idsKept, handleIngest_settled. cbn [page chats ingests].
    destruct ok; cbn;
      (split; [eauto|]); (split; [|split; [exact Hchats|]]);
      try (now apply Forall_without); [|exact Hids].
    apply idsTruthy_map; [intros; apply ingested_id | exact Ht].
  - unfold idsKept, onPage, handleInputChange. cbn [page chats ingests].
    destruct (startsWith val (u "/")); cbn;
      (split; [eauto | now repeat split]).
  - destruct (nth_error _ k) as [c|]; [|exact H].
    unfold idsKept, onPage, selectCommand. cbn.
    split; [eauto | now repeat split].
  - unfold handleChat. rewrite Ha, Hta.
    destruct (truthy (chatInput (page w))); cbn [negb];
      unfold idsKept; cbn [page chats ingests]; [|now repeat split; eauto].
    assert (Hupd : idsTruthy
      (map (withUser a0 (chatInput (page w)) (repoUrlCell (page w))
              (mkMessage user (chatInput (page w)) None nowMsg))
         (sessions (page w)))).
    { apply idsTruthy_map; [intros; apply withUser_id | exact Hids]. }
    cbn. split; [eauto|]. split; [exact Hupd|]. split; [|exact Hingests].
    apply Forall_app. split; [exact Hchats|]. now repeat constructor.
  - destruct (nth_error _ k) as [t|] eqn:E; [|exact H].
    apply nth_error_In in E.
    assert (Ht : idsTruthy (updatedWithUser t)).
    { rewrite Forall_forall in Hchats. auto. }
    unfold idsKept, handleChat_settled. cbn.
    split; [eauto|]. split; [|split; [now apply Forall_without|exact Hingests]].
    apply idsTruthy_map; [intros; apply appendTo_id | exact Ht].
  - unfold idsKept, onPage. cbn. split; [eauto | now repeat split].
Qed.

Lemma runPage_idsKept (actions : list Action) :
  forall w, idsKept w -> idsKept (runPage w actions).
Proof.
  unfold runPage. induction actions as [|a actions IH]; intros w H;
    [exact H|].
  simpl. apply IH. now apply act_idsKept.
Qed.

(** X21: On the mounted page the branch of [handleChat] and of [handleIngest]
    that creates a session is never taken, provided the stored sessions have
    non-empty ids: an active id is always there, so a question never adds a
    session to the collection, and starting to load a repository leaves the
    collection and the active id as they are and hands the collection as it
    is, with the active id, to the pending call. *)
Theorem turns_never_create_sessions (saved : Stored) (now : N)
  (actions : list Action) (nowId nowMsg nowIngest : N) :
  storedIdsTruthy saved ->
  map id
    (sessions
       (snd (handleChat nowId nowMsg
               (page (runPage (mountedWorld saved now) actions)))))
  = map id (sessions (page (runPage (mountedWorld saved now) actions))) /\
  sessions
    (snd (handleIngest nowIngest
            (page (runPage (mountedWorld saved now) actions))))
  = sessions (page (runPage (mountedWorld saved now) actions)) /\
  activeSessionId
    (snd (handleIngest nowIngest
            (page (runPage (mountedWorld saved now) actions))))
  = activeSessionId (page (runPage (mountedWorld saved now) actions)) /\
  match fst (handleIngest nowIngest
               (page (runPage (mountedWorld saved now) actions))) with
  | Some t =>
      ingestSessions t
        = sessions (page (runPage (mountedWorld saved now) actions)) /\
      Some (ingestSessionId t)
        = activeSessionId (page (runPage (mountedWorld saved now) actions))
  | None => True
  end.
Proof.
  intros Hsaved.
  pose proof (runPage_idsKept actions _ (mount_idsKept saved now Hsaved))
    as ((a & Ha & Hta) & _).
  set (st := page (runPage (mountedWorld saved now) actions)) in *.
  split.
  - unfold handleChat. rewrite Ha, Hta.
    destruct (truthy (chatInput st)); cbn; [|reflexivity].
    rewrite map_map. apply map_ext. intros s. apply withUser_id.
  - unfold handleIngest. rewrite Ha, Hta.
    destruct (truthy (repoUrlCell st)); cbn [negb fst snd];
      repeat split; assumption.
Qed.

Lemma turns_never_create_sessions_witness :
  map id
    (sessions
       (snd (handleChat 7 8
               (page (runPage (mountedWorld (Parsed [sessionA; sessionB]) 0)
                        [DeleteClick 0 true 5; NewClick 6;
                         InputChange (u "hello")])))))
  = [u "sess_6"; u "sess_2"].
Proof.
  rewrite (proj1 (turns_never_create_sessions (Parsed [sessionA; sessionB]) 0
                    [DeleteClick 0 true 5; NewClick 6;
                     InputChange (u "hello")] 7 8 9
                    ltac:(repeat constructor))).
  reflexivity.
Defined.

End DeadBranch.

Section Reload.

Import Page PageFlow.

(** X22: Mounting the page again on what it has stored gives the collection
    back as it was on screen, with its first session as the active one,
    whichever was active before; only when the collection was empty is a
    fresh session created. *)
Theorem reload_restores_collection (saved : Stored) (now : N)
  (actions : list Action) (later : N) :
  match sessions (page (runPage (mountedWorld saved now) actions)) with
  | latest :: rest =>
      sessions
        (mount later
           (initial
              (chat_history (page (runPage (mountedWorld saved now) actions)))))
        = latest :: rest /\
      activeSessionId
        (mount later
           (initial
              (chat_history (page (runPage (mountedWorld saved now) actions)))))
        = Some (id latest) /\
      repoUrlCell
        (mount later
           (initial
              (chat_history (page (runPage (mountedWorld saved now) actions)))))
        = repoUrl latest
  | [] =>
      sessions
        (mount later
           (initial
              (chat_history (page (runPage (mountedWorld saved now) actions)))))
        = [newChat later []]
  end.
Proof.
  pose proof (runPage_wellKept actions (mountedWorld saved now)
                (mount_wellKept saved now)) as (Hs & _).
  unfold synced in Hs. rewrite Hs.
  destruct (sessions (page (runPage (mountedWorld saved now) actions)))
    as [|latest rest]; [reflexivity|].
  unfold mount, initial. cbn. repeat split.
  unfold orElse. now destruct (repoUrl latest).
Qed.

End Reload.

(** ** Where the page does not keep what is claimed *)

Section Defects.

Import Page PageFlow Scenario Scenario2.

(** C3, not kept by the page.  One session is stored.  A question is sent
    in it, a new session is opened while the call is pending, and the reply
    puts back the collection of the turn, in which the new session is not:
    the active id is now the id of no listed session.  Deleting the one
    listed session then finds that it is not the active one, creates
    nothing, and leaves an empty collection, in the cell and in the store,
    with an active id that no session has and an empty transcript. *)
Theorem deletion_leaves_no_active_session :
  map id (sessions strandedPage) = [u "sess_1"] /\
  activeSessionId strandedPage = Some (u "sess_3") /\
  sessions emptiedPage = [] /\
  chat_history emptiedPage = Parsed [] /\
  activeSessionId emptiedPage = Some (u "sess_3") /\
  hasActive emptiedPage = false /\
  activeMessages emptiedPage = [].
Proof. vm_compute. repeat split. Qed.

(** C4, not kept by the page.  Two questions are sent one after the other
    in one session, the second with the Enter key while the first call is
    pending; both are on screen.  The first call fails: its [catch] branch
    stores the collection of its own turn with the error message, and the
    second question is gone from the screen and from the store. *)
Theorem failure_erases_overlapping_message :
  map content (activeMessages pageBeforeFailure) = [u "first"; u "second"] /\
  map content (activeMessages pageAfterFailure)
    = [u "first"; 10060 :: u " Error connecting to AI. Please try again."] /\
  map role (activeMessages pageAfterFailure) = [user; ai] /\
  chat_history pageAfterFailure = Parsed (sessions pageAfterFailure) /\
  chat_history pageBeforeFailure = Parsed (sessions pageBeforeFailure).
Proof. vm_compute. repeat split. Qed.

End Defects.
